(** * WebSSH: the mock file system and its shell interpreter

    A shallow embedding of [src/services/mockSys.ts] (class [MockSystem])
    and of the [FileSystemNode] interface of the types module, followed by
    the properties of path resolution, of the command dispatcher and of the
    upload entry point [addFile].

    Conventions of the embedding.
    - A JavaScript string is a [string]: a sequence of code units, here the
      code units below 256.  Only ['/'], the white space class of [\s] and
      of [trim] and equality of whole strings are ever inspected.
    - An optional property ([content?], [children?]) is an [option]; an
      array is a [list]; [args[1]] is a list lookup, [undefined] when out of
      range.
    - The object graph under [this.root] is a tree: the constructor clones
      the seed through JSON and the only caller of [addFile] passes a fresh
      object literal.  A node reached by [findNode] is therefore identified
      by the path that reached it, and the in-place writes of [addFile] are
      writes at that path.
    - Methods are computations in a state monad over the two private fields
      of the class. *)

From Stdlib Require Import Ascii.
From stdpp Require Import list strings.

Local Open Scope stdpp_scope.

(** ** Strings as the source uses them *)

Module JsString.

(** [s.length > 0], also the truthiness of a string. *)
Definition nonempty (s : string) : bool :=
  match s with
  | EmptyString => false
  | String _ _ => true
  end.

(** [s.startsWith(c)] for a one-character [c]. *)
Definition startsWith (c : ascii) (s : string) : bool :=
  match s with
  | EmptyString => false
  | String x _ => bool_decide (x = c)
  end.

(** [s.split(c)] for a one-character separator: every occurrence of [c]
    ends a piece, so [n] separators give [n + 1] pieces and the empty
    string gives one empty piece. *)
Fixpoint split (c : ascii) (s : string) : list string :=
  match s with
  | EmptyString => [EmptyString]
  | String x r =>
      if bool_decide (x = c) then EmptyString :: split c r
      else match split c r with
           | piece :: pieces => String x piece :: pieces
           | [] => [String x EmptyString]
           end
  end.

(** [xs.join(sep)]. *)
Fixpoint join (sep : string) (xs : list string) : string :=
  match xs with
  | [] => EmptyString
  | [x] => x
  | x :: rest => x +:+ sep +:+ join sep rest
  end.

(** The white space and line terminator code units below 256: TAB, LF,
    VT, FF, CR, SPACE and NBSP. *)
Definition isSpace (c : ascii) : bool :=
  let n := nat_of_ascii c in
  (9 <=? n) && (n <=? 13) || (n =? 32) || (n =? 160).

Fixpoint trimStart (s : string) : string :=
  match s with
  | EmptyString => EmptyString
  | String c r => if isSpace c then trimStart r else s
  end.

Fixpoint trimEnd (s : string) : string :=
  match s with
  | EmptyString => EmptyString
  | String c r =>
      match trimEnd r with
      | EmptyString => if isSpace c then EmptyString else String c EmptyString
      | r' => String c r'
      end
  end.

(** [s.trim()]. *)
Definition trim (s : string) : string := trimEnd (trimStart s).

(** [s.split(/\s+/)]: every maximal run of white space ends a piece. A
    run at the very start or the very end leaves an empty piece there, and
    the empty string gives one empty piece. *)
Fixpoint splitSpaces (s : string) : list string :=
  match s with
  | EmptyString => [EmptyString]
  | String x r =>
      if isSpace x then
        match r with
        | String y _ => if isSpace y then splitSpaces r
                        else EmptyString :: splitSpaces r
        | EmptyString => EmptyString :: splitSpaces r
        end
      else match splitSpaces r with
           | piece :: pieces => String x piece :: pieces
           | [] => [String x EmptyString]
           end
  end.

(** A template literal prints a missing value as [undefined]. *)
Definition interpolate (v : option string) : string :=
  match v with
  | Some s => s
  | None => "undefined"
  end.

(** Truthiness of a possibly missing string: [!v] is [negb (truthy v)]. *)
Definition truthy (v : option string) : bool :=
  match v with
  | Some s => nonempty s
  | None => false
  end.

Definition NL : string := String (ascii_of_nat 10) EmptyString.
Definition DQ : string := String (ascii_of_nat 34) EmptyString.

End JsString.

(** ** The data model *)

Inductive NodeType := file | directory.

Global Instance NodeType_eq_dec : EqDecision NodeType.
Proof. solve_decision. Defined.

(** [FileSystemNode] of the types module. *)
#[warnings="-register-all"]
Inductive FileSystemNode := mkNode {
  name : string;
  type : NodeType;
  content : option string;
  children : option (list FileSystemNode);
  permissions : string;
  owner : string;
  size : string;
  date : string
}.

(** [node.children = cs], every other property kept. *)
Definition set_children (node : FileSystemNode) (cs : list FileSystemNode)
  : FileSystemNode :=
  mkNode (name node) (type node) (content node) (Some cs)
         (permissions node) (owner node) (size node) (date node).

Definition dirNode (n perm own sz dt : string) (cs : list FileSystemNode)
  : FileSystemNode :=
  mkNode n directory None (Some cs) perm own sz dt.

Definition fileNode (n perm own sz dt body : string) : FileSystemNode :=
  mkNode n file (Some body) None perm own sz dt.

Import JsString.

(** The seed, [initialFileSystem]. *)
Definition initialFileSystem : FileSystemNode :=
  dirNode "root" "drwxr-xr-x" "root" "4096" "Oct 25 10:00"
    [ dirNode "home" "drwxr-xr-x" "root" "4096" "Oct 25 10:00"
        [ dirNode "user" "drwxr-xr-x" "user" "4096" "Oct 25 10:01"
            [ dirNode "documents" "drwxr-xr-x" "user" "4096" "Oct 26 14:30"
                [ fileNode "project_notes.txt" "-rw-r--r--" "user" "1.2k"
                    "Oct 26 14:32"
                    ("These are the notes for the secret project." +:+ NL +:+
                     "Status: Ongoing" +:+ NL +:+ "Priority: High");
                  fileNode "todo.md" "-rw-r--r--" "user" "340" "Oct 27 09:15"
                    ("- [ ] Refactor backend" +:+ NL +:+
                     "- [ ] Fix CSS bugs" +:+ NL +:+
                     "- [x] Deploy to production") ];
              fileNode "config.json" "-rw-r--r--" "user" "512" "Oct 25 11:20"
                ("{" +:+ NL +:+
                 "  " +:+ DQ +:+ "theme" +:+ DQ +:+ ": " +:+ DQ +:+ "dark"
                      +:+ DQ +:+ "," +:+ NL +:+
                 "  " +:+ DQ +:+ "notifications" +:+ DQ +:+ ": true,"
                      +:+ NL +:+
                 "  " +:+ DQ +:+ "version" +:+ DQ +:+ ": " +:+ DQ +:+ "1.0.4"
                      +:+ DQ +:+ NL +:+
                 "}") ] ];
      dirNode "var" "drwxr-xr-x" "root" "4096" "Oct 24 08:00"
        [ dirNode "log" "drwxr-xr-x" "root" "4096" "Oct 24 08:00"
            [ fileNode "syslog" "-rw-r-----" "syslog" "24M" "Oct 27 15:45"
                "Oct 27 15:45:01 server CRON[1234]: (root) CMD (cd / && run-parts --report /etc/cron.hourly)" ] ];
      dirNode "etc" "drwxr-xr-x" "root" "4096" "Oct 20 12:00"
        [ fileNode "passwd" "-rw-r--r--" "root" "1024" "Oct 20 12:00"
            ("root:x:0:0:root:/root:/bin/bash" +:+ NL +:+
             "user:x:1000:1000:user,,,:/home/user:/bin/bash") ] ].

(** [JSON.parse(JSON.stringify(node))]: a structural copy, the same value. *)
Definition cloneFS (node : FileSystemNode) : FileSystemNode := node.

(** ** The class state and its monad *)

Record MockSystem := mkSys {
  root : FileSystemNode;
  currentPath : list string
}.

Definition Method (A : Type) : Type := MockSystem → A * MockSystem.

Definition ret {A} (a : A) : Method A := λ this, (a, this).

Definition bind {A B} (m : Method A) (k : A → Method B) : Method B :=
  λ this, let (a, this') := m this in k a this'.

Definition getRoot : Method FileSystemNode := λ this, (root this, this).
Definition getCurrentPath : Method (list string) :=
  λ this, (currentPath this, this).
Definition setRoot (r : FileSystemNode) : Method unit :=
  λ this, (tt, mkSys r (currentPath this)).
Definition setCurrentPath (p : list string) : Method unit :=
  λ this, (tt, mkSys (root this) p).

Declare Scope method_scope.
Delimit Scope method_scope with method.
Notation "'let*' x ':=' m 'in' k" := (bind m (λ x, k))
  (at level 10, x pattern, m at level 100, k at level 200) : method_scope.
Notation "m ';;' k" := (bind m (λ _, k))
  (at level 100, k at level 200, right associativity) : method_scope.
Local Open Scope method_scope.

(** The constructor. *)
Definition new_MockSystem : MockSystem :=
  mkSys (cloneFS initialFileSystem) ["home"; "user"].

(** ** Lookup and path resolution *)

(** The loop of [findNode]: one step per segment, each step taking the first
    child whose name is the segment. *)
Fixpoint findNode_from (current : FileSystemNode) (path : list string)
  : option FileSystemNode :=
  match path with
  | [] => Some current
  | segment :: rest =>
      match children current with
      | None => None
      | Some cs =>
          match list_find (λ c, name c = segment) cs with
          | None => None
          | Some (_, next) => findNode_from next rest
          end
      end
  end.

Definition findNode (path : list string) : Method (option FileSystemNode) :=
  let* current := getRoot in
  ret (findNode_from current path).

(** The body of the loop of [resolvePath]; [removelast] is [pop]. *)
Definition resolveStep (targetPath : list string) (part : string)
  : list string :=
  if bool_decide (part = "..") then
    if bool_decide (0 < length targetPath) then removelast targetPath
    else targetPath
  else targetPath ++ [part].

Definition resolvePath (pathStr : string)
  : Method (option FileSystemNode * list string) :=
  let isAbsolute := startsWith "/" pathStr in
  let parts :=
    List.filter (λ p, nonempty p && negb (bool_decide (p = ".")))
                (split "/" pathStr) in
  let* cwd := getCurrentPath in
  let targetPath := if isAbsolute then [] else cwd in
  let targetPath := fold_left resolveStep parts targetPath in
  let* node := findNode targetPath in
  ret (node, targetPath).

(** ** The command interpreter *)

(** [cmdStr.trim().split(/\s+/)]. *)
Definition tokens (cmdStr : string) : list string :=
  splitSpaces (trim cmdStr).

Definition getCurrentPathString : Method string :=
  let* cwd := getCurrentPath in
  ret ("/" +:+ join "/" cwd).

Definition helpText : string :=
  "Available commands: ls, cd, pwd, cat, echo, whoami, help." +:+ NL +:+
  "This is a simulated environment.".

(** [args[0]] and [args[1]] are lookups; where [args[1]] is truthy,
    [interpolate arg1] is the string itself. *)
Definition executeCommand (cmdStr : string) : Method string :=
  let args := tokens cmdStr in
  let cmd := args !! 0 in
  let arg1 := args !! 1 in
  if negb (truthy cmd) then ret ""
  else if bool_decide (cmd = Some "ls") then
    let* target :=
      (if truthy arg1
       then let* r := resolvePath (interpolate arg1) in ret (fst r)
       else let* cwd := getCurrentPath in findNode cwd) in
    match target with
    | None =>
        ret ("ls: cannot access '" +:+ interpolate arg1 +:+
             "': No such file or directory")
    | Some target =>
        if bool_decide (type target = file) then ret (name target)
        else ret (default "" (join "  " ∘ map name <$> children target))
    end
  else if bool_decide (cmd = Some "cd") then
    if negb (truthy arg1) then
      setCurrentPath ["home"; "user"] ;; ret ""
    else
      let* r := resolvePath (interpolate arg1) in
      match fst r with
      | Some node =>
          if bool_decide (type node ≠ directory)
          then ret ("cd: " +:+ interpolate arg1 +:+
                    ": No such file or directory")
          else setCurrentPath (snd r) ;; ret ""
      | None =>
          ret ("cd: " +:+ interpolate arg1 +:+ ": No such file or directory")
      end
  else if bool_decide (cmd = Some "pwd") then getCurrentPathString
  else if bool_decide (cmd = Some "cat") then
    if negb (truthy arg1) then ret "cat: missing operand"
    else
      let* r := resolvePath (interpolate arg1) in
      match fst r with
      | None =>
          ret ("cat: " +:+ interpolate arg1 +:+ ": No such file or directory")
      | Some node =>
          if bool_decide (type node = directory)
          then ret ("cat: " +:+ interpolate arg1 +:+ ": Is a directory")
          else ret (default "" (content node))
      end
  else if bool_decide (cmd = Some "echo") then ret (join " " (drop 1 args))
  else if bool_decide (cmd = Some "whoami") then ret "user"
  else if bool_decide (cmd = Some "help") then ret helpText
  else ret (interpolate cmd +:+ ": command not found").

(** ** The file manager methods *)

Definition listFiles (pathStr : string) : Method (list FileSystemNode) :=
  let parts :=
    if bool_decide (pathStr = "/") then []
    else List.filter nonempty (split "/" pathStr) in
  let* node := findNode parts in
  ret match node with
      | Some node =>
          if bool_decide (type node = directory)
          then default [] (children node)
          else []
      | None => []
      end.

(** The tree after the object reached from [current] along [path] has become
    [node']: what an assignment to a property of that object does to the
    tree that holds it. *)
Fixpoint writeAt (current : FileSystemNode) (path : list string)
    (node' : FileSystemNode) : FileSystemNode :=
  match path with
  | [] => node'
  | segment :: rest =>
      match children current with
      | None => current
      | Some cs =>
          match list_find (λ c, name c = segment) cs with
          | None => current
          | Some (i, next) =>
              set_children current (<[i := writeAt next rest node']> cs)
          end
      end
  end.

(** The children array of [addFile] after its write: the first child with the
    name of [fileNode] is overwritten, or [fileNode] is pushed. *)
Definition putChild (cs : list FileSystemNode) (fileNode : FileSystemNode)
  : list FileSystemNode :=
  match list_find (λ c, name c = name fileNode) cs with
  | Some (existsIndex, _) => <[existsIndex := fileNode]> cs
  | None => cs ++ [fileNode]
  end.

Definition addFile (dirPath : string) (fileNode : FileSystemNode)
  : Method bool :=
  let* r := resolvePath dirPath in
  match fst r with
  | Some node =>
      if bool_decide (type node = directory) then
        let cs := default [] (children node) in
        let node' := set_children node (putChild cs fileNode) in
        let* tree := getRoot in
        setRoot (writeAt tree (snd r) node') ;;
        ret true
      else ret false
  | None => ret false
  end.

(** ** The working array of [resolvePath], by reference

    [resolvePath] is the one method that writes into an array ([push] and
    [pop] on [targetPath]).  Here the arrays of strings live in a heap and
    [this.currentPath] is a reference; the tree is only read and stays a
    value.  The model above is the value-level reading of this one. *)

Module ByRef.

(** The heap: the arrays allocated so far, an array being addressed by its
    position. *)
Abbreviation Heap := (list (list string)).
Abbreviation Ref := nat.

Record Object := mkObject {
  root : FileSystemNode;
  currentPath : Ref
}.

Definition deref (h : Heap) (r : Ref) : list string := default [] (h !! r).

(** An array literal or a spread: a new array. *)
Definition alloc (h : Heap) (v : list string) : Ref * Heap :=
  (length h, h ++ [v]).

Definition push (h : Heap) (r : Ref) (x : string) : Heap :=
  <[r := deref h r ++ [x]]> h.

Definition pop (h : Heap) (r : Ref) : Heap :=
  <[r := removelast (deref h r)]> h.

Definition resolveStep (targetPath : Ref) (h : Heap) (part : string) : Heap :=
  if bool_decide (part = "..") then
    if bool_decide (0 < length (deref h targetPath)) then pop h targetPath
    else h
  else push h targetPath part.

Definition resolvePath (pathStr : string) (this : Object) (h : Heap)
  : (option FileSystemNode * Ref) * Heap :=
  let isAbsolute := startsWith "/" pathStr in
  let parts :=
    List.filter (λ p, nonempty p && negb (bool_decide (p = ".")))
                (split "/" pathStr) in
  let '(targetPath, h) := alloc h [] in
  let '(targetPath, h) :=
    if isAbsolute then alloc h []
    else alloc h (deref h (currentPath this)) in
  let h := fold_left (resolveStep targetPath) parts h in
  ((findNode_from (root this) (deref h targetPath), targetPath), h).

(** The state of the value-level model that an object and a heap stand
    for. *)
Definition valueOf (this : Object) (h : Heap) : MockSystem :=
  mkSys (root this) (deref h (currentPath this)).

End ByRef.

(** ** The file manager view, [components/FileManager.tsx]

    The two handlers that compute a path.  Each returns the path it hands
    to [onNavigate], or nothing when it does not navigate. *)

Module FileManager.

(** [xs.slice(0, -1)]: all but the last element. *)
Definition sliceInit {A} (xs : list A) : list A := take (length xs - 1) xs.

Definition handleDoubleClick (currentPath : string) (file : FileSystemNode)
  : option string :=
  if bool_decide (type file = directory) then
    let newPath :=
      if bool_decide (currentPath = "/") then "/" +:+ name file
      else currentPath +:+ "/" +:+ name file in
    Some newPath
  else None.

Definition goUp (currentPath : string) : option string :=
  if bool_decide (currentPath = "/") then None
  else
    let joined := join "/" (sliceInit (split "/" currentPath)) in
    let parentPath := if nonempty joined then joined else "/" in
    Some parentPath.

End FileManager.

(** ** The terminal lines of the types module *)

Module Types.

Inductive LineType := input | output | error | system.

(** [TerminalLine] of the types module. *)
Record TerminalLine := mkLine {
  id : string;
  lineType : LineType;
  content : string;
  cwd : option string
}.

End Types.

(** ** The terminal search, [Terminal] component

    The two steps through the list of matches; [count] is
    [matches.length] and [%] is the remainder of JavaScript, which has the
    sign of the dividend. *)

Module Terminal.

Definition nextMatch (count : Z) (currentMatchIndex : Z) : Z :=
  if bool_decide (count = 0%Z) then currentMatchIndex
  else Z.rem (currentMatchIndex + 1) count.

Definition prevMatch (count : Z) (currentMatchIndex : Z) : Z :=
  if bool_decide (count = 0%Z) then currentMatchIndex
  else Z.rem (currentMatchIndex - 1 + count) count.

(** The search itself.  [toLowerCase] on the code units below 256 maps
    [A]-[Z] and the capital letters of Latin-1 (192 to 222 without 215) to
    the code unit 32 above.  Beyond these code units a character can change
    length under [toLowerCase]; the search facts below are stated on the
    lowercased strings, as the loop reads them, and use nothing of
    [toLowerCase] but that it keeps a non-empty string non-empty. *)
Definition lowerChar (c : ascii) : ascii :=
  let n := nat_of_ascii c in
  if (65 <=? n) && (n <=? 90) || (192 <=? n) && (n <=? 214)
     || (216 <=? n) && (n <=? 222)
  then ascii_of_nat (n + 32)
  else c.

Fixpoint toLowerCase (s : string) : string :=
  match s with
  | EmptyString => EmptyString
  | String c r => String (lowerChar c) (toLowerCase r)
  end.

(** The scan of [indexOf]: [hay] is what is left of the string from
    position [pos] on; the first position not before [from] at which
    [needle] starts. *)
Fixpoint indexOfFrom (needle hay : string) (pos from : nat) {struct hay}
  : option nat :=
  if (from <=? pos) && String.prefix needle hay then Some pos
  else match hay with
       | EmptyString => None
       | String _ r => indexOfFrom needle r (S pos) from
       end.

(** [hay.indexOf(needle, from)], with [None] for [-1]; a start beyond the
    end counts as the end. *)
Definition indexOf (needle hay : string) (from : nat) : option nat :=
  indexOfFrom needle hay 0 (from `min` String.length hay).

(** [s.substring(from, to)]: both ends are cut to the length and taken in
    order. *)
Definition substring (from to : nat) (s : string) : string :=
  let from' := from `min` String.length s in
  let to' := to `min` String.length s in
  String.substring (from' `min` to') ((from' `max` to') - (from' `min` to')) s.

(** An element of [matches]; [len] is its [length] property. *)
Record Match := mkMatch {
  lineId : string;
  start : nat;
  len : nat
}.

(** The [while] loop over one line, at most [fuel] rounds of it. *)
Fixpoint searchLine (fuel : nat) (lowerQuery lowerContent id : string)
    (startIndex : nat) : list Match :=
  match fuel with
  | 0 => []
  | S fuel' =>
      match indexOf lowerQuery lowerContent startIndex with
      | None => []
      | Some found =>
          mkMatch id found (String.length lowerQuery)
          :: searchLine fuel' lowerQuery lowerContent id
               (found + String.length lowerQuery)
      end
  end.

(** The memoised [matches]: every round of the loop finds a match in the
    lowercased content and moves on by the length of the lowercased query,
    which is not empty, so the loop on a line makes at most one round more
    than the lowercased content has code units. *)
Definition matches (lines : list Types.TerminalLine) (searchQuery : string)
  : list Match :=
  if negb (nonempty searchQuery) then []
  else
    let lowerQuery := toLowerCase searchQuery in
    flat_map
      (λ line,
         let content := Types.content line in
         let lowerContent := toLowerCase content in
         searchLine (S (String.length lowerContent)) lowerQuery lowerContent
                    (Types.id line) 0)
      lines.

(** What [renderLineContent] returns: the content as it is, or a fragment
    of plain strings and highlighted spans; [key] is the position of the
    span among the matches of the line. *)
Inductive Part :=
| Text (s : string)
| Highlight (key : nat) (isCurrent : bool) (s : string).

Inductive Rendered :=
| Plain (s : string)
| Fragment (parts : list Part).

(** The body of the [forEach] of [renderLineContent]; an item is the
    position in the line's matches, the [globalIndex] and the match. *)
Definition renderStep (content : string) (currentMatchIndex : Z)
    (acc : list Part * nat) (item : nat * (nat * Match))
  : list Part * nat :=
  let parts := fst acc in
  let lastIndex := snd acc in
  let i := fst item in
  let globalIndex := fst (snd item) in
  let m := snd (snd item) in
  let parts :=
    if lastIndex <? start m
    then parts ++ [Text (substring lastIndex (start m) content)]
    else parts in
  let isCurrent := bool_decide (Z.of_nat globalIndex = currentMatchIndex) in
  (parts ++ [Highlight i isCurrent
               (substring (start m) (start m + len m) content)],
   start m + len m).

Definition renderLineContent (searchQuery : string) (matches : list Match)
    (currentMatchIndex : Z) (line : Types.TerminalLine) : Rendered :=
  if negb (nonempty searchQuery) || bool_decide (length matches = 0)
  then Plain (Types.content line)
  else
    let lineMatches :=
      List.filter (λ gm, bool_decide (lineId (snd gm) = Types.id line))
                  (imap pair matches) in
    if bool_decide (length lineMatches = 0) then Plain (Types.content line)
    else
      let content := Types.content line in
      let looped :=
        fold_left (renderStep content currentMatchIndex)
                  (imap pair lineMatches) ([], 0) in
      let parts := fst looped in
      let lastIndex := snd looped in
      Fragment
        (if lastIndex <? String.length content
         then parts ++ [Text (substring lastIndex (String.length content)
                                        content)]
         else parts).

(** The text that a rendered line shows. *)
Definition partText (p : Part) : string :=
  match p with
  | Text s => s
  | Highlight _ _ s => s
  end.

Definition shownText (r : Rendered) : string :=
  match r with
  | Plain s => s
  | Fragment parts => fold_right String.append "" (map partText parts)
  end.

End Terminal.

(** ** The saved connection profiles, [ConnectionForm] component *)

Module ConnectionForm.

Inductive AuthType := password_auth | key_auth.

(** The [port] of a form or of a profile.  The form holds what [parseInt]
    made of the field: a whole number, or [NaN] when the field has no
    digits.  [JSON.stringify] writes [NaN] as [null], so a profile read
    back from the storage can hold [null]. *)
Inductive Port := Num (z : Z) | NaN | Null.

(** [SavedConnection] of the types module. *)
Record SavedConnection := mkSaved {
  id : string;
  label : string;
  host : string;
  username : string;
  port : Port;
  authType : AuthType
}.

(** What [JSON.parse] reads of what [JSON.stringify] wrote: a number is
    kept, [NaN] and [null] are [null]; the strings of a profile are kept. *)
Definition storedPort (p : Port) : Port :=
  match p with
  | Num z => Num z
  | NaN | Null => Null
  end.

Definition storedConnection (c : SavedConnection) : SavedConnection :=
  mkSaved (id c) (label c) (host c) (username c) (storedPort (port c))
          (authType c).

(** The state of the component; [storage] is the item of [localStorage]
    under [STORAGE_KEY], parsed. *)
Record Form := mkForm {
  savedConnections : list SavedConnection;
  selectedId : option string;
  formLabel : string;
  formHost : string;
  formUsername : string;
  formPort : Port;
  formAuthType : AuthType;
  formPassword : string;
  storage : option (list SavedConnection)
}.

(** [localStorage.setItem] stores the item or throws (the storage is full,
    or denied); [accepts] says which.  A handler that throws returns
    [None], and the component is not followed further. *)
Definition saveToStorage (accepts : bool)
    (connections : list SavedConnection) (st : Form) : option Form :=
  if accepts then
    Some (mkForm connections (selectedId st) (formLabel st) (formHost st)
            (formUsername st) (formPort st) (formAuthType st)
            (formPassword st) (Some (storedConnection <$> connections)))
  else None.

Definition setSelectedId (sel : option string) (st : Form) : Form :=
  mkForm (savedConnections st) sel (formLabel st) (formHost st)
         (formUsername st) (formPort st) (formAuthType st) (formPassword st)
         (storage st).

(** The [onChange] of the port field, [setPort(parseInt(e.target.value))];
    [parsed] is what [parseInt] returns. *)
Definition setPort (parsed : Port) (st : Form) : Form :=
  mkForm (savedConnections st) (selectedId st) (formLabel st) (formHost st)
         (formUsername st) parsed (formAuthType st) (formPassword st)
         (storage st).

(** [handleSaveProfile]; [now] is [Date.now().toString()].  An empty label
    only raises the alert. *)
Definition handleSaveProfile (now : string) (accepts : bool) (st : Form)
  : option Form :=
  if negb (nonempty (formLabel st)) then Some st
  else
    let newProfile :=
      mkSaved (if truthy (selectedId st) then interpolate (selectedId st)
               else now)
              (formLabel st) (formHost st) (formUsername st) (formPort st)
              (formAuthType st) in
    if truthy (selectedId st) then
      let newConnections :=
        map (λ c, if bool_decide (Some (id c) = selectedId st)
                  then newProfile else c)
            (savedConnections st) in
      saveToStorage accepts newConnections st
    else
      let newConnections := savedConnections st ++ [newProfile] in
      saveToStorage accepts newConnections
        (setSelectedId (Some (id newProfile)) st).

Definition handleNewConnection (st : Form) : Form :=
  mkForm (savedConnections st) None "" "192.168.1.100" "user" (Num 22)
         password_auth "" (storage st).

Definition handleDeleteProfile (accepts : bool) (target : string) (st : Form)
  : option Form :=
  let newConnections :=
    List.filter (λ c, negb (bool_decide (id c = target)))
                (savedConnections st) in
  match saveToStorage accepts newConnections st with
  | Some st' =>
      Some (if bool_decide (selectedId st = Some target)
            then handleNewConnection st' else st')
  | None => None
  end.

Definition handleLoadProfile (conn : SavedConnection) (st : Form) : Form :=
  mkForm (savedConnections st) (Some (id conn)) (label conn) (host conn)
         (username conn) (port conn) (authType conn) "" (storage st).

End ConnectionForm.

(** ** The application shell, [App.tsx]

    The handlers that drive the interpreter and the file manager.  The
    state is the module-level [mockSystem] and the React state these
    handlers read or write; the identifiers taken from the clock and the
    texts computed from the uploaded [File] are arguments. *)

Module App.

Record State := mkState {
  mockSystem : MockSystem;
  terminalLines : list Types.TerminalLine;
  shownCwd : string;
  fileList : list FileSystemNode;
  fsPath : string
}.

(** [s.startsWith('cd')]. *)
Definition startsWithCd (s : string) : bool :=
  match s with
  | String a (String b _) => bool_decide (a = "c"%char) && bool_decide (b = "d"%char)
  | _ => false
  end.

(** [raw === '/home/user' ? '~' : raw]. *)
Definition beautify (raw : string) : string :=
  if bool_decide (raw = "/home/user") then "~" else raw.

Definition refreshFiles (path : string) (st : State) : State :=
  let (files, sys) := listFiles path (mockSystem st) in
  mkState sys (terminalLines st) (shownCwd st) files (fsPath st).

Definition setFsPath (path : string) (st : State) : State :=
  mkState (mockSystem st) (terminalLines st) (shownCwd st) (fileList st) path.

Definition handleNavigateFiles (newPath : string) (st : State) : State :=
  refreshFiles newPath (setFsPath newPath st).

(** [executeCommand]; [id1] is [Date.now().toString()] and [id2] is
    [(Date.now() + 1).toString()]. *)
Definition executeCommand (id1 id2 : string) (cmd : string) (st : State)
  : State :=
  let newLine :=
    Types.mkLine id1 Types.input cmd (Some (beautify (shownCwd st))) in
  let (out, sys) := executeCommand cmd (mockSystem st) in
  let (newCwdRaw, sys) := getCurrentPathString sys in
  let displayCwd := beautify newCwdRaw in
  let outputLine := Types.mkLine id2 Types.output out (Some displayCwd) in
  let st :=
    mkState sys (terminalLines st ++ [newLine; outputLine]) displayCwd
            (fileList st) (fsPath st) in
  if startsWithCd cmd then refreshFiles newCwdRaw (setFsPath newCwdRaw st)
  else st.

(** [handleUploadFile]; [fileName] is [file.name], [sizeText] is
    [formatBytes(file.size)], [dateText] the formatted date, [username]
    is [connection?.username] and [now] is [Date.now().toString()]. *)
Definition handleUploadFile
    (fileName sizeText dateText : string) (username : option string)
    (now : string) (st : State) : State :=
  let newNode :=
    mkNode fileName file
           (Some ("[Binary Content of " +:+ fileName +:+ "]")) None
           "-rw-r--r--"
           (if truthy username then interpolate username else "user")
           sizeText dateText in
  let (success, sys) := addFile (fsPath st) newNode (mockSystem st) in
  let st :=
    mkState sys (terminalLines st) (shownCwd st) (fileList st) (fsPath st) in
  if success then
    let st := refreshFiles (fsPath st) st in
    mkState (mockSystem st)
            (terminalLines st ++
             [Types.mkLine now Types.system
                ("Uploaded " +:+ fileName +:+ " to " +:+ fsPath st)
                (Some (shownCwd st))])
            (shownCwd st) (fileList st) (fsPath st)
  else st.

End App.

(** ** The resolver in the words of the specification *)

Module Spec.

(** The path split on ['/'], without the empty segments and without the
    segments equal to ['.']. *)
Definition segments (pathStr : string) : list string :=
  filter (λ s, s ≠ "" ∧ s ≠ ".") (split "/" pathStr).

(** ['..'] pops the last segment of the working list when there is one and
    does nothing at the root; any other segment is appended. *)
Fixpoint normalise (work segs : list string) : list string :=
  match segs with
  | [] => work
  | seg :: segs' =>
      if decide (seg = "..") then
        match work with
        | [] => normalise [] segs'
        | _ :: _ => normalise (take (length work - 1) work) segs'
        end
      else normalise (work ++ [seg]) segs'
  end.


End Spec.

(** ** Auxiliary predicates *)

(** The two components of the result of [resolvePath], as the callers
    destructure it. *)
Definition resolvedNode (pathStr : string) (this : MockSystem)
  : option FileSystemNode :=
  fst (fst (resolvePath pathStr this)).

Definition resolvedParts (pathStr : string) (this : MockSystem)
  : list string :=
  snd (fst (resolvePath pathStr this)).

(** A line of white space only (the empty line included). *)
Fixpoint blank (s : string) : bool :=
  match s with
  | EmptyString => true
  | String c r => isSpace c && blank r
  end.

(** The last code unit is white space. *)
Fixpoint endsWithSpace (s : string) : bool :=
  match s with
  | EmptyString => false
  | String c EmptyString => isSpace c
  | String _ r => endsWithSpace r
  end.

(** A line that moves the cursor: a [cd] without argument, or a [cd] whose
    argument resolves to a directory. *)
Definition movesCursor (line : string) (this : MockSystem) : Prop :=
  tokens line !! 0 = Some "cd"
  ∧ (tokens line !! 1 = None
     ∨ ∃ path node, tokens line !! 1 = Some path
                    ∧ resolvedNode path this = Some node
                    ∧ type node = directory).

(** The built-in command names. *)
Definition builtins : list string :=
  ["ls"; "cd"; "pwd"; "cat"; "echo"; "whoami"; "help"].

(** ** Predicates on path strings and segments *)

(** The code unit [c] occurs in [s]. *)
Fixpoint occurs (c : ascii) (s : string) : bool :=
  match s with
  | EmptyString => false
  | String x r => bool_decide (x = c) || occurs c r
  end.

(** A segment as [resolvePath] produces them: a non-empty name without
    ['/'] that is neither ['.'] nor ['..']. *)
Definition wfSegment (s : string) : Prop :=
  s ≠ "" ∧ s ≠ "." ∧ s ≠ ".." ∧ occurs "/" s = false.

(** The cursor names a directory of the tree. *)
Definition cursorOnDirectory (this : MockSystem) : Prop :=
  ∃ node, findNode_from (root this) (currentPath this) = Some node
          ∧ type node = directory.

(** Some code unit of [s] is white space. *)
Fixpoint hasSpace (s : string) : bool :=
  match s with
  | EmptyString => false
  | String c r => isSpace c || hasSpace r
  end.

(** A token as [tokens] produces them on a line that is not blank. *)
Definition cleanToken (t : string) : Prop := t ≠ "" ∧ hasSpace t = false.

(** Sibling names are unique in every directory that a path leads to. *)
Definition siblingNamesUnique (tree : FileSystemNode) : Prop :=
  ∀ path node, findNode_from tree path = Some node →
               NoDup (name <$> default [] (children node)).

(** A check of sibling-name uniqueness down to a given depth; it fails
    when the tree is deeper. *)
Fixpoint checkSiblingNames (depth : nat) (tree : FileSystemNode) : bool :=
  match depth with
  | 0 => false
  | S depth' =>
      bool_decide (NoDup (name <$> default [] (children tree)))
      && forallb (checkSiblingNames depth') (default [] (children tree))
  end.

(** What [listFiles] returns for the node it reaches. *)
Definition listingOf (node : option FileSystemNode) : list FileSystemNode :=
  match node with
  | Some n =>
      match type n with
      | directory => default [] (children n)
      | file => []
      end
  | None => []
  end.

(** The matches come one after the other from position [from] on, without
    overlap. *)
Fixpoint chained (from : nat) (ms : list Terminal.Match) : Prop :=
  match ms with
  | [] => True
  | m :: rest =>
      from ≤ Terminal.start m
      ∧ chained (Terminal.start m + Terminal.len m) rest
  end.

(** [needle] stands in [hay] at position [j]. *)
Definition occursAt (needle hay : string) (j : nat) : Prop :=
  j + String.length needle ≤ String.length hay
  ∧ String.substring j (String.length needle) hay = needle.



(** The port of the profile is a number. *)
Definition portIsNumber (c : ConnectionForm.SavedConnection) : Prop :=
  ∃ z, ConnectionForm.port c = ConnectionForm.Num z.

(** [c'] is what is read back of [c] once written as JSON: the same
    strings, the same port when that is a number, and [null] as the port
    when it is [NaN] or [null]. *)
Definition writtenAs (c c' : ConnectionForm.SavedConnection) : Prop :=
  ConnectionForm.id c' = ConnectionForm.id c
  ∧ ConnectionForm.label c' = ConnectionForm.label c
  ∧ ConnectionForm.host c' = ConnectionForm.host c
  ∧ ConnectionForm.username c' = ConnectionForm.username c
  ∧ ConnectionForm.authType c' = ConnectionForm.authType c
  ∧ match ConnectionForm.port c with
    | ConnectionForm.Num z => ConnectionForm.port c' = ConnectionForm.Num z
    | ConnectionForm.NaN | ConnectionForm.Null =>
        ConnectionForm.port c' = ConnectionForm.Null
    end.

(** The item under the storage key is the list [l] written as JSON. *)
Definition storageHolds (item : option (list ConnectionForm.SavedConnection))
    (l : list ConnectionForm.SavedConnection) : Prop :=
  ∃ stored, item = Some stored ∧ Forall2 writtenAs l stored.

(** ** Facts about the string operations *)

Section StringFacts.

Lemma split_nonnil c s : split c s ≠ [].
Proof. destruct s as [|x r]; simpl; [done|]. case_bool_decide; [done|]. by destruct (split c r). Qed.

(** Joining the pieces with the separator gives the string back. *)
Lemma join_split c s : join (String c "") (split c s) = s.
Proof.
  induction s as [|x r IH]; simpl; [done|].
  case_bool_decide as Hx.
  - subst x. destruct (split c r) as [|p ps] eqn:E; [by apply split_nonnil in E|].
    simpl in *. by rewrite IH.
  - destruct (split c r) as [|p ps] eqn:E; [by apply split_nonnil in E|].
    destruct ps; simpl in *; by rewrite <- IH.
Qed.

Lemma trimStart_blank s : blank s = true → trimStart s = "".
Proof.
  induction s as [|c r IH]; simpl; [done|].
  intros [Hc Hr]%andb_prop. rewrite Hc. auto.
Qed.

Lemma trimStart_head s :
  trimStart s = "" ∨ ∃ c r, trimStart s = String c r ∧ isSpace c = false.
Proof.
  induction s as [|c r IH]; simpl; [by left|].
  destruct (isSpace c) eqn:Hc; [done|]. right; eauto.
Qed.

Lemma trimEnd_cons c r :
  isSpace c = false → trimEnd (String c r) = String c (trimEnd r).
Proof. intros Hc; simpl. rewrite Hc. by destruct (trimEnd r). Qed.

Lemma trimEnd_clean s : endsWithSpace (trimEnd s) = false.
Proof.
  induction s as [|c r IH]; simpl; [done|].
  destruct (trimEnd r) as [|c' r'] eqn:E.
  - destruct (isSpace c) eqn:Hc; simpl; done.
  - done.
Qed.

(** After [trim] the string is empty or starts with a code unit that is
    not white space, and it never ends with white space. *)
Lemma trim_shape s :
  (trim s = "" ∨ ∃ c r, trim s = String c r ∧ isSpace c = false)
  ∧ endsWithSpace (trim s) = false.
Proof.
  split; [|apply trimEnd_clean].
  unfold trim. destruct (trimStart_head s) as [->|(c & r & -> & Hc)].
  - by left.
  - right. exists c, (trimEnd r). by rewrite trimEnd_cons.
Qed.

Lemma trim_blank s : blank s = true → trim s = "".
Proof. intros H. unfold trim. by rewrite trimStart_blank. Qed.

Lemma splitSpaces_nonnil s : splitSpaces s ≠ [].
Proof.
  induction s as [|x r IH]; simpl; [done|].
  destruct (isSpace x).
  - destruct r as [|y r']; [done|]. by destruct (isSpace y).
  - by destruct (splitSpaces r).
Qed.

Lemma splitSpaces_space x r :
  isSpace x = true →
  splitSpaces (String x r) =
    match r with
    | String y _ => if isSpace y then splitSpaces r else "" :: splitSpaces r
    | EmptyString => "" :: splitSpaces r
    end.
Proof. intros Hx. destruct r; simpl; by rewrite Hx. Qed.

Lemma splitSpaces_other x r :
  isSpace x = false →
  splitSpaces (String x r) =
    match splitSpaces r with
    | piece :: pieces => String x piece :: pieces
    | [] => [String x EmptyString]
    end.
Proof. intros Hx. destruct r; simpl; by rewrite Hx. Qed.

(** Without white space at the end, only the first piece of
    [splitSpaces] can be empty, and it is empty only for the empty string
    and for a string that starts with white space. *)
Lemma splitSpaces_pieces s :
  endsWithSpace s = false →
  Forall (λ t, t ≠ "") (tail (splitSpaces s))
  ∧ (∀ c r, s = String c r → isSpace c = false →
       Forall (λ t, t ≠ "") (splitSpaces s)).
Proof.
  induction s as [|x r IH]; intros Hend.
  - split; [constructor|done].
  - assert (Hr : r ≠ "" → endsWithSpace r = false).
    { destruct r; [done|]. intros _. exact Hend. }
    destruct (isSpace x) eqn:Hx.
    + split; [|intros ?? [= <- <-]; congruence].
      destruct r as [|y r']; [simpl in Hend; congruence|].
      destruct (IH (Hr ltac:(done))) as [IHt IHh].
      rewrite splitSpaces_space by done.
      destruct (isSpace y) eqn:Hy; [exact IHt|].
      simpl tail. eapply IHh; eauto.
    + assert (Forall (λ t, t ≠ "") (tail (splitSpaces (String x r)))) as Ht.
      { rewrite splitSpaces_other by done.
        destruct r as [|y r']; [simpl; constructor|].
        destruct (IH (Hr ltac:(done))) as [IHt _].
        destruct (splitSpaces (String y r')); [constructor|exact IHt]. }
      split; [exact Ht|]. intros _ _ _ _.
      revert Ht. rewrite splitSpaces_other by done.
      destruct (splitSpaces r); simpl; intros Ht; constructor; done.
Qed.

(** The tokens of a line are all non-empty, unless the line is blank, and
    then there is exactly one, empty, token. *)
Lemma tokens_shape line :
  tokens line = [""] ∨ Forall (λ t, t ≠ "") (tokens line).
Proof.
  unfold tokens. destruct (trim_shape line) as [[->|(c & r & E & Hc)] Hend].
  - by left.
  - right. eapply (splitSpaces_pieces _ Hend); eauto.
Qed.

Lemma tokens_blank line : blank line = true → tokens line = [""].
Proof. intros H. unfold tokens. by rewrite trim_blank. Qed.

Lemma tokens_lookup_nonempty line i t :
  tokens line !! i = Some t → 1 ≤ i → t ≠ "".
Proof.
  intros Hi Hge. destruct (tokens_shape line) as [E|HF].
  - rewrite E in Hi. destruct i as [|i]; [lia|]. done.
  - eapply Forall_lookup_1 in HF; eauto.
Qed.

Lemma tokens_truthy line i t :
  tokens line !! i = Some t → 1 ≤ i → truthy (Some t) = true.
Proof.
  intros E Hi. apply tokens_lookup_nonempty in E; [|done]. by destruct t.
Qed.

End StringFacts.

(** ** Facts about lookup and resolution *)

Section ResolverFacts.

Implicit Types (n c : FileSystemNode) (path parts : list string).

Lemma findNode_run path this :
  findNode path this = (findNode_from (root this) path, this).
Proof. reflexivity. Qed.

Lemma resolvePath_run pathStr this :
  resolvePath pathStr this =
    ((resolvedNode pathStr this, resolvedParts pathStr this), this).
Proof. reflexivity. Qed.

Lemma resolvedNode_parts pathStr this :
  resolvedNode pathStr this =
    findNode_from (root this) (resolvedParts pathStr this).
Proof. reflexivity. Qed.

(** The filter of the source keeps what the specification keeps. *)
Lemma source_filter_segments (l : list string) :
  List.filter (λ p, nonempty p && negb (bool_decide (p = "."))) l =
  filter (λ s, s ≠ "" ∧ s ≠ ".") l.
Proof.
  induction l as [|s l IH]; [done|].
  cbn [List.filter]. rewrite IH, filter_cons.
  destruct (decide (s ≠ "" ∧ s ≠ ".")) as [[Hne Hdot]|Hn].
  - destruct s as [|a s']; [done|]. cbn [nonempty andb].
    by rewrite bool_decide_eq_false_2 by done.
  - destruct s as [|a s']; [done|]. cbn [nonempty andb].
    case_bool_decide; [done|]. destruct Hn. done.
Qed.

(** The loop of the source computes the normal form of the
    specification. *)
Lemma resolve_loop_normalise segs work :
  fold_left resolveStep segs work = Spec.normalise work segs.
Proof.
  revert work. induction segs as [|seg segs IH]; intros work; [done|].
  simpl. rewrite IH. unfold resolveStep.
  case_bool_decide as Hdd.
  - rewrite decide_True by done. destruct work as [|w work']; [done|].
    rewrite bool_decide_eq_true_2 by (simpl; lia).
    rewrite removelast_firstn_len. cbn [length pred]. do 2 f_equal. lia.
  - by rewrite decide_False by done.
Qed.

Lemma resolvedParts_spec pathStr this :
  resolvedParts pathStr this =
    Spec.normalise
      (if startsWith "/" pathStr then [] else currentPath this)
      (Spec.segments pathStr).
Proof.
  unfold resolvedParts, resolvePath, bind, getCurrentPath, findNode, ret.
  simpl. by rewrite resolve_loop_normalise, source_filter_segments.
Qed.




Lemma findNode_from_app n p q :
  findNode_from n (p ++ q) =
    match findNode_from n p with
    | Some m => findNode_from m q
    | None => None
    end.
Proof.
  revert n. induction p as [|seg p IH]; intros n; simpl; [done|].
  destruct (children n) as [cs|]; [|done].
  destruct (list_find _ cs) as [[i next]|]; [|done]. apply IH.
Qed.

End ResolverFacts.

(** ** Path resolution (C1) *)


Example resolvePath_examples :
  resolvedParts "../../../x" new_MockSystem = ["x"]
  ∧ resolvedParts "a//b/./c/.." new_MockSystem = ["home"; "user"; "a"; "b"]
  ∧ resolvedParts "/var/log/../../etc" new_MockSystem = ["etc"]
  ∧ resolvePath "/nope/x" new_MockSystem
    = ((None, ["nope"; "x"]), new_MockSystem)
  ∧ (name <$> resolvedNode "documents/../config.json" new_MockSystem)
    = Some "config.json"
  ∧ (name <$> resolvedNode "" new_MockSystem) = Some "user".
Proof. by vm_compute. Qed.

Example tokens_examples :
  tokens "  ls   /etc  " = ["ls"; "/etc"]
  ∧ tokens "" = [""]
  ∧ tokens "   " = [""]
  ∧ splitSpaces " a  b " = [""; "a"; "b"; ""]
  ∧ split "/" "/a//b/" = [""; "a"; ""; "b"; ""]
  ∧ split "/" "" = [""].
Proof. by vm_compute. Qed.

(** ** The commands, one by one *)

Section CommandFacts.

(** Goes through the tests of the dispatcher once the command name is
    known. *)
Ltac dispatch Hcmd :=
  unfold executeCommand; rewrite Hcmd; cbn [truthy nonempty negb];
  repeat (rewrite bool_decide_eq_false_2 by (intros [=]));
  rewrite bool_decide_eq_true_2 by reflexivity.

Lemma executeCommand_cd line this :
  tokens line !! 0 = Some "cd" →
  executeCommand line this =
    let arg1 := tokens line !! 1 in
    if negb (truthy arg1) then ("", mkSys (root this) ["home"; "user"])
    else
      match resolvedNode (interpolate arg1) this with
      | Some node =>
          if bool_decide (type node ≠ directory)
          then ("cd: " +:+ interpolate arg1 +:+
                ": No such file or directory", this)
          else ("", mkSys (root this) (resolvedParts (interpolate arg1) this))
      | None =>
          ("cd: " +:+ interpolate arg1 +:+ ": No such file or directory",
           this)
      end.
Proof.
  intros Hcmd. dispatch Hcmd.
  cbv zeta. destruct (truthy (tokens line !! 1)); cbn [negb]; [|done].
  unfold bind. rewrite resolvePath_run. cbn [fst snd].
  destruct (resolvedNode _ this) as [node|]; [|done].
  by destruct (bool_decide (type node ≠ directory)).
Qed.

Lemma executeCommand_ls line this :
  tokens line !! 0 = Some "ls" →
  executeCommand line this =
    let arg1 := tokens line !! 1 in
    let target :=
      if truthy arg1 then resolvedNode (interpolate arg1) this
      else findNode_from (root this) (currentPath this) in
    match target with
    | None =>
        ("ls: cannot access '" +:+ interpolate arg1 +:+
         "': No such file or directory", this)
    | Some target =>
        if bool_decide (type target = file) then (name target, this)
        else (default "" (join "  " ∘ map name <$> children target), this)
    end.
Proof.
  intros Hcmd. dispatch Hcmd. cbv zeta. unfold bind.
  destruct (truthy (tokens line !! 1)).
  - rewrite resolvePath_run. unfold ret at 1. cbn [fst snd].
    destruct (resolvedNode _ this) as [node|]; [|done].
    by destruct (bool_decide (type node = file)).
  - cbn [getCurrentPath]. rewrite findNode_run.
    destruct (findNode_from _ _) as [node|]; [|done].
    by destruct (bool_decide (type node = file)).
Qed.

Lemma executeCommand_cat line this :
  tokens line !! 0 = Some "cat" →
  executeCommand line this =
    let arg1 := tokens line !! 1 in
    if negb (truthy arg1) then ("cat: missing operand", this)
    else
      match resolvedNode (interpolate arg1) this with
      | None =>
          ("cat: " +:+ interpolate arg1 +:+ ": No such file or directory",
           this)
      | Some node =>
          if bool_decide (type node = directory)
          then ("cat: " +:+ interpolate arg1 +:+ ": Is a directory", this)
          else (default "" (content node), this)
      end.
Proof.
  intros Hcmd. dispatch Hcmd.
  cbv zeta. destruct (truthy (tokens line !! 1)); cbn [negb]; [|done].
  unfold bind. rewrite resolvePath_run. cbn [fst snd].
  destruct (resolvedNode _ this) as [node|]; [|done].
  by destruct (bool_decide (type node = directory)).
Qed.

(** The commands that only print. *)
Lemma executeCommand_pwd line this :
  tokens line !! 0 = Some "pwd" →
  executeCommand line this = ("/" +:+ join "/" (currentPath this), this).
Proof. intros Hcmd. by dispatch Hcmd. Qed.

Lemma executeCommand_echo line this :
  tokens line !! 0 = Some "echo" →
  executeCommand line this = (join " " (drop 1 (tokens line)), this).
Proof. intros Hcmd. by dispatch Hcmd. Qed.

Lemma executeCommand_whoami line this :
  tokens line !! 0 = Some "whoami" →
  executeCommand line this = ("user", this).
Proof. intros Hcmd. by dispatch Hcmd. Qed.

Lemma executeCommand_help line this :
  tokens line !! 0 = Some "help" →
  executeCommand line this = (helpText, this).
Proof. intros Hcmd. by dispatch Hcmd. Qed.

Lemma executeCommand_blank line this :
  tokens line !! 0 = Some "" → executeCommand line this = ("", this).
Proof. intros Hcmd. unfold executeCommand. by rewrite Hcmd. Qed.

Lemma executeCommand_unknown line this cmd :
  tokens line !! 0 = Some cmd →
  cmd ∉ builtins →
  cmd ≠ "" →
  executeCommand line this = (cmd +:+ ": command not found", this).
Proof.
  intros Hcmd Hnot Hne. unfold executeCommand. rewrite Hcmd.
  assert (truthy (Some cmd) = true) as -> by (by destruct cmd).
  cbn [negb].
  repeat (rewrite bool_decide_eq_false_2;
          [|intros [= E]; apply Hnot; rewrite E; repeat constructor]).
  done.
Qed.

(** Only [cd] writes to the state. *)
Lemma executeCommand_not_cd line this :
  tokens line !! 0 ≠ Some "cd" →
  snd (executeCommand line this) = this.
Proof.
  intros Hcd. destruct (tokens line !! 0) as [cmd|] eqn:Hcmd.
  - destruct (decide (cmd = "")) as [->|Hne];
      [by rewrite executeCommand_blank|].
    destruct (decide (cmd ∈ builtins)) as [Hin|Hout];
      [|by erewrite executeCommand_unknown].
    unfold builtins in Hin. rewrite !elem_of_cons in Hin.
    destruct Hin as [->|[->|[->|[->|[->|[->|[->|Hin]]]]]]].
    + rewrite executeCommand_ls by done. cbv zeta.
      destruct (if truthy _ then _ else _) as [node|]; [|done].
      by destruct (bool_decide _).
    + done.
    + by rewrite executeCommand_pwd.
    + rewrite executeCommand_cat by done. cbv zeta.
      destruct (negb _); [done|].
      destruct (resolvedNode _ _) as [node|]; [|done].
      by destruct (bool_decide _).
    + by rewrite executeCommand_echo.
    + by rewrite executeCommand_whoami.
    + by rewrite executeCommand_help.
    + by apply elem_of_nil in Hin.
  - unfold executeCommand. by rewrite Hcmd.
Qed.

(** The first token always exists. *)
Lemma tokens_first line : is_Some (tokens line !! 0).
Proof.
  unfold tokens. pose proof (splitSpaces_nonnil (trim line)).
  destruct (splitSpaces (trim line)); [done|]. by eexists.
Qed.

End CommandFacts.

(** ** The interpreter (C2, C4, C5, C6, C8) *)

(** C2. For every line whose first token is [cd]: without argument the
    cursor becomes [home/user] and the output is empty; with an argument
    that resolves to no node or to a file the output is
    [cd: <path>: No such file or directory], [<path>] being the argument as
    typed, and the state is unchanged; with an argument that resolves to a
    directory the cursor becomes the resolved segment list and the output is
    empty.  The tree is the same in every case. *)
Theorem cd_semantics (line : string) (this : MockSystem) :
  tokens line !! 0 = Some "cd" →
  executeCommand line this =
    match tokens line !! 1 with
    | None => ("", mkSys (root this) ["home"; "user"])
    | Some path =>
        match resolvedNode path this with
        | None => ("cd: " +:+ path +:+ ": No such file or directory", this)
        | Some node =>
            match type node with
            | file =>
                ("cd: " +:+ path +:+ ": No such file or directory", this)
            | directory => ("", mkSys (root this) (resolvedParts path this))
            end
        end
    end.
Proof.
  intros Hcmd. rewrite executeCommand_cd by done. cbv zeta.
  destruct (tokens line !! 1) as [path|] eqn:Harg; [|done].
  rewrite (tokens_truthy line 1 path) by (done || lia).
  cbn [negb interpolate].
  destruct (resolvedNode path this) as [node|]; [|done].
  by destruct (type node).
Qed.

Lemma cd_semantics_witness :
  tokens "cd /var/log" !! 0 = Some "cd"
  ∧ executeCommand "cd /var/log" new_MockSystem
    = ("", mkSys (root new_MockSystem) ["var"; "log"]).
Proof.
  split; [reflexivity|].
  exact (cd_semantics "cd /var/log" new_MockSystem eq_refl).
Defined.



(** C5. For every line whose first token is [cat]: without argument the
    output is [cat: missing operand]; an argument that resolves to no node
    gives [cat: <path>: No such file or directory]; one that resolves to a
    directory gives [cat: <path>: Is a directory]; one that resolves to a
    file gives the content of the file, the empty string when it has none.
    The state is unchanged.  On the seed, [cd /home/user/documents] followed
    by [cat todo.md] prints the content seeded for
    [/home/user/documents/todo.md]. *)
Theorem cat_semantics :
  (∀ (line : string) (this : MockSystem),
     tokens line !! 0 = Some "cat" →
     executeCommand line this =
       match tokens line !! 1 with
       | None => ("cat: missing operand", this)
       | Some path =>
           match resolvedNode path this with
           | None =>
               ("cat: " +:+ path +:+ ": No such file or directory", this)
           | Some node =>
               match type node with
               | directory => ("cat: " +:+ path +:+ ": Is a directory", this)
               | file => (default "" (content node), this)
               end
           end
       end)
  ∧ (let this1 := snd (executeCommand "cd /home/user/documents"
                                      new_MockSystem) in
     let seeded :=
       "- [ ] Refactor backend" +:+ NL +:+ "- [ ] Fix CSS bugs" +:+ NL +:+
       "- [x] Deploy to production" in
     fst (executeCommand "cat todo.md" this1) = seeded
     ∧ (findNode_from initialFileSystem
          ["home"; "user"; "documents"; "todo.md"] ≫= content)
       = Some seeded).
Proof.
  split; [|by vm_compute].
  intros line this Hcmd. rewrite executeCommand_cat by done. cbv zeta.
  destruct (tokens line !! 1) as [path|] eqn:Harg; [|done].
  rewrite (tokens_truthy line 1 path) by (done || lia).
  cbn [negb interpolate].
  destruct (resolvedNode path this) as [node|]; [|done].
  by destruct (type node).
Qed.

Lemma cat_semantics_witness :
  tokens "cat documents" !! 0 = Some "cat"
  ∧ executeCommand "cat documents" new_MockSystem
    = ("cat: documents: Is a directory", new_MockSystem).
Proof.
  split; [reflexivity|].
  exact (proj1 cat_semantics "cat documents" new_MockSystem eq_refl).
Defined.

(** C6. [executeCommand] is total: for every line and every state it
    returns an output string and a state.  A blank line (empty, or white
    space only) gives the empty string and leaves the state alone; a first
    token that is no built-in gives [<command>: command not found]; and the
    failures of [ls], [cd] and [cat] (no such node, a file where a
    directory is needed, a directory where a file is needed, a missing
    operand) are the returned output, the state being left as it was. *)
Theorem executeCommand_total (line : string) (this : MockSystem) :
  ∃ (out : string) (this' : MockSystem),
    executeCommand line this = (out, this')
    ∧ (blank line = true → out = "" ∧ this' = this)
    ∧ (∀ cmd, tokens line !! 0 = Some cmd → cmd ≠ "" → cmd ∉ builtins →
         out = cmd +:+ ": command not found" ∧ this' = this)
    ∧ (∀ path, tokens line !! 1 = Some path →
         resolvedNode path this = None →
         (tokens line !! 0 = Some "ls" →
            out = "ls: cannot access '" +:+ path +:+
                  "': No such file or directory" ∧ this' = this)
         ∧ (tokens line !! 0 = Some "cd" →
              out = "cd: " +:+ path +:+ ": No such file or directory"
              ∧ this' = this)
         ∧ (tokens line !! 0 = Some "cat" →
              out = "cat: " +:+ path +:+ ": No such file or directory"
              ∧ this' = this))
    ∧ (∀ path node, tokens line !! 1 = Some path →
         resolvedNode path this = Some node →
         (tokens line !! 0 = Some "cd" → type node = file →
            out = "cd: " +:+ path +:+ ": No such file or directory"
            ∧ this' = this)
         ∧ (tokens line !! 0 = Some "cat" → type node = directory →
              out = "cat: " +:+ path +:+ ": Is a directory" ∧ this' = this))
    ∧ (tokens line !! 0 = Some "cat" → tokens line !! 1 = None →
         out = "cat: missing operand" ∧ this' = this).
Proof.
  destruct (executeCommand line this) as [out this'] eqn:Hrun.
  exists out, this'. split; [done|]. split_and!.
  - intros Hblank. apply tokens_blank in Hblank.
    rewrite executeCommand_blank in Hrun by (by rewrite Hblank).
    by injection Hrun as <- <-.
  - intros cmd Hcmd Hne Hout.
    rewrite (executeCommand_unknown line this cmd) in Hrun by done.
    by injection Hrun as <- <-.
  - intros path Harg Hnone.
    pose proof (tokens_truthy line 1 path Harg ltac:(lia)) as Htruthy.
    rewrite <- Harg in Htruthy.
    split_and!; intros Hcmd.
    + rewrite executeCommand_ls in Hrun by done. cbv zeta in Hrun.
      rewrite Htruthy, Harg in Hrun. cbn [interpolate] in Hrun.
      rewrite Hnone in Hrun. by injection Hrun as <- <-.
    + rewrite executeCommand_cd in Hrun by done. cbv zeta in Hrun.
      rewrite Htruthy, Harg in Hrun. cbn [interpolate negb] in Hrun.
      rewrite Hnone in Hrun. by injection Hrun as <- <-.
    + rewrite executeCommand_cat in Hrun by done. cbv zeta in Hrun.
      rewrite Htruthy, Harg in Hrun. cbn [interpolate negb] in Hrun.
      rewrite Hnone in Hrun. by injection Hrun as <- <-.
  - intros path node Harg Hnode.
    pose proof (tokens_truthy line 1 path Harg ltac:(lia)) as Htruthy.
    rewrite <- Harg in Htruthy.
    split_and!; intros Hcmd Htype.
    + rewrite executeCommand_cd in Hrun by done. cbv zeta in Hrun.
      rewrite Htruthy, Harg in Hrun. cbn [interpolate negb] in Hrun.
      rewrite Hnode, Htype in Hrun. by injection Hrun as <- <-.
    + rewrite executeCommand_cat in Hrun by done. cbv zeta in Hrun.
      rewrite Htruthy, Harg in Hrun. cbn [interpolate negb] in Hrun.
      rewrite Hnode, Htype in Hrun. by injection Hrun as <- <-.
  - intros Hcmd Harg.
    rewrite executeCommand_cat in Hrun by done. cbv zeta in Hrun.
    rewrite Harg in Hrun. by injection Hrun as <- <-.
Qed.

(** C8. For every line, [executeCommand] returns a state with the same
    tree, and with the same cursor unless the line is a [cd] without
    argument or a [cd] whose argument resolves to a directory.  The other
    readers, [resolvePath] and [listFiles], return the state they were
    given; the tree changes through [addFile] alone. *)
Theorem executeCommand_frame (line : string) (this : MockSystem) :
  root (snd (executeCommand line this)) = root this
  ∧ (¬ movesCursor line this →
     currentPath (snd (executeCommand line this)) = currentPath this)
  ∧ (∀ pathStr, snd (resolvePath pathStr this) = this
                ∧ snd (listFiles pathStr this) = this).
Proof.
  split_and!; [| |done].
  - destruct (decide (tokens line !! 0 = Some "cd")) as [Hcd|Hcd];
      [|by rewrite executeCommand_not_cd].
    rewrite executeCommand_cd by done. cbv zeta.
    destruct (negb _); [done|].
    destruct (resolvedNode _ _) as [node|]; [|done].
    by destruct (bool_decide _).
  - intros Hstay.
    destruct (decide (tokens line !! 0 = Some "cd")) as [Hcd|Hcd];
      [|by rewrite executeCommand_not_cd].
    destruct (tokens line !! 1) as [path|] eqn:Harg;
      [|destruct Hstay; split; auto].
    rewrite executeCommand_cd by done. cbv zeta.
    rewrite Harg, (tokens_truthy line 1 path) by (done || lia).
    cbn [negb interpolate].
    destruct (resolvedNode path this) as [node|] eqn:Hnode; [|done].
    case_bool_decide as Htype; [done|].
    destruct Hstay. split; [done|]. right. exists path, node.
    split_and!; [done..|]. by destruct (type node).
Qed.

Lemma executeCommand_frame_witness :
  ¬ movesCursor "cd config.json" new_MockSystem
  ∧ currentPath (snd (executeCommand "cd config.json" new_MockSystem))
    = ["home"; "user"].
Proof.
  assert (¬ movesCursor "cd config.json" new_MockSystem) as Hstay.
  { intros [_ [Harg|(path & node & Harg & Hnode & Htype)]].
    - discriminate Harg.
    - injection Harg as <-. vm_compute in Hnode. injection Hnode as <-.
      discriminate Htype. }
  split; [exact Hstay|].
  exact (proj1 (proj2 (executeCommand_frame "cd config.json" new_MockSystem))
               Hstay).
Defined.

(** ** The file manager (C9) *)

Section ListFilesFacts.

Lemma source_filter_nonempty (l : list string) :
  List.filter nonempty l = filter (λ s, s ≠ "") l.
Proof.
  induction l as [|s l IH]; [done|].
  cbn [List.filter]. rewrite IH, filter_cons.
  destruct s as [|a s'].
  - by rewrite decide_False by naive_solver.
  - by rewrite decide_True by done.
Qed.

(** The test of [listFiles] for ["/"] agrees with the general case. *)
Lemma listFiles_parts pathStr :
  (if bool_decide (pathStr = "/") then []
   else List.filter nonempty (split "/" pathStr))
  = filter (λ s, s ≠ "") (split "/" pathStr).
Proof.
  case_bool_decide as Hroot.
  - by subst pathStr.
  - apply source_filter_nonempty.
Qed.

End ListFilesFacts.


(** On the seed, [..] and [.] are names that no child has for [listFiles],
    while the resolver of the shell steps over them. *)
Example listFiles_dots_literal :
  fst (listFiles "/home/user/.." new_MockSystem) = []
  ∧ fst (listFiles "/home/./user" new_MockSystem) = []
  ∧ (name <$> resolvedNode "/home/user/.." new_MockSystem) = Some "home"
  ∧ name <$> fst (listFiles "/home/user" new_MockSystem)
    = ["documents"; "config.json"].
Proof. by vm_compute. Qed.

(** ** The upload entry point (C3, C10) *)

Section AddFileFacts.

Implicit Types (n c f : FileSystemNode) (cs : list FileSystemNode).

Lemma list_find_name_Some cs seg i c :
  list_find (λ c, name c = seg) cs = Some (i, c) ↔
  cs !! i = Some c ∧ name c = seg
  ∧ ∀ j c', j < i → cs !! j = Some c' → name c' ≠ seg.
Proof.
  rewrite list_find_Some. split.
  - intros (Hi & Hc & Hmin). eauto.
  - intros (Hi & Hc & Hmin). split_and!; [done..|]. eauto.
Qed.

(** Overwriting the first match by a node of the same name keeps it the
    first match. *)
Lemma list_find_overwrite cs seg i c c' :
  list_find (λ c, name c = seg) cs = Some (i, c) →
  name c' = seg →
  list_find (λ c, name c = seg) (<[i := c']> cs) = Some (i, c').
Proof.
  rewrite !list_find_name_Some. intros (Hi & Hc & Hmin) Hc'.
  split_and!; [|done|].
  - apply list_lookup_insert_eq. by eapply lookup_lt_Some.
  - intros j d Hj. rewrite list_lookup_insert_ne by lia. eauto.
Qed.

(** A write below a node keeps the name of the node. *)
Lemma writeAt_name n path m m' :
  findNode_from n path = Some m → name m' = name m →
  name (writeAt n path m') = name n.
Proof.
  destruct path as [|seg rest]; simpl.
  - by intros [= ->].
  - intros _ _. destruct (children n) as [cs|]; [|done].
    by destruct (list_find _ cs) as [[i next]|].
Qed.

(** After the write, the path leads to what was written. *)
Lemma findNode_from_writeAt n path m m' :
  findNode_from n path = Some m → name m' = name m →
  findNode_from (writeAt n path m') path = Some m'.
Proof.
  revert n. induction path as [|seg rest IH]; intros n Hm Hname; [done|].
  simpl in *. destruct (children n) as [cs|] eqn:Hcs; [|done].
  destruct (list_find _ cs) as [[i next]|] eqn:Hfind; [|done].
  cbn [children set_children].
  erewrite list_find_overwrite; [by apply IH|done|].
  rewrite (writeAt_name next rest m m') by done.
  by apply list_find_name_Some in Hfind as (_ & ? & _).
Qed.

Lemma addFile_run dirPath f this :
  addFile dirPath f this =
    match resolvedNode dirPath this with
    | Some node =>
        if bool_decide (type node = directory) then
          (true,
           mkSys (writeAt (root this) (resolvedParts dirPath this)
                    (set_children node
                       (putChild (default [] (children node)) f)))
                 (currentPath this))
        else (false, this)
    | None => (false, this)
    end.
Proof.
  unfold addFile, bind. rewrite resolvePath_run. cbn [fst snd].
  destruct (resolvedNode dirPath this) as [node|]; [|done].
  by destruct (bool_decide _).
Qed.

Lemma putChild_overwrite cs f i c :
  cs !! i = Some c → name c = name f →
  (∀ j c', j < i → cs !! j = Some c' → name c' ≠ name f) →
  putChild cs f = <[i := f]> cs.
Proof.
  intros Hi Hc Hmin. unfold putChild.
  by rewrite (proj2 (list_find_name_Some cs (name f) i c)).
Qed.

Lemma putChild_push cs f :
  (∀ c, c ∈ cs → name c ≠ name f) → putChild cs f = cs ++ [f].
Proof.
  intros Hno. unfold putChild.
  destruct (list_find _ cs) as [[i c]|] eqn:Hfind; [|done].
  apply list_find_name_Some in Hfind as (Hi & Hc & _).
  apply list_elem_of_lookup_2 in Hi. by apply Hno in Hi.
Qed.

End AddFileFacts.

(** Sibling names.  The seed has unique sibling names, and the write of
    [addFile] keeps them unique. *)

Section SiblingNames.

Implicit Types (c f : FileSystemNode) (cs : list FileSystemNode).

(** Where sibling names are unique, a child with a given name is the first
    with that name. *)
Lemma unique_names_first cs i c seg :
  NoDup (name <$> cs) → cs !! i = Some c → name c = seg →
  ∀ j c', j < i → cs !! j = Some c' → name c' ≠ seg.
Proof.
  intros Hnodup Hi Hc j c' Hlt Hj Hc'.
  assert (i = j); [|lia].
  eapply (NoDup_lookup (name <$> cs)); [done| |].
  - by rewrite list_lookup_fmap, Hi.
  - rewrite list_lookup_fmap, Hj. simpl. congruence.
Qed.

(** The write of [addFile] keeps sibling names unique. *)
Lemma putChild_unique cs f :
  NoDup (name <$> cs) → NoDup (name <$> putChild cs f).
Proof.
  intros Hnodup. unfold putChild.
  destruct (list_find _ cs) as [[i c]|] eqn:Hfind.
  - apply list_find_Some in Hfind as (Hi & Hc & _).
    rewrite list_fmap_insert, list_insert_id; [done|].
    by rewrite list_lookup_fmap, Hi, <- Hc.
  - rewrite fmap_app. apply NoDup_app. split_and!; [done| |].
    + intros x Hx [->|Hnil%elem_of_nil]%elem_of_cons; [|done].
      apply list_elem_of_fmap in Hx as (c & Hname & Hc).
      rewrite list_find_None, Forall_forall in Hfind.
      by apply (Hfind c).
    + apply NoDup_singleton.
Qed.

End SiblingNames.

(** ** What [addFile] leaves alone *)

Section AddFileFrame.

Implicit Types (n c f : FileSystemNode) (cs : list FileSystemNode).

Lemma list_find_name_cons seg d cs :
  list_find (λ c, name c = seg) (d :: cs)
  = if decide (name d = seg) then Some (0, d)
    else prod_map S id <$> list_find (λ c, name c = seg) cs.
Proof. reflexivity. Qed.

Lemma list_find_insert_other cs seg i c c' :
  cs !! i = Some c → name c ≠ seg → name c' ≠ seg →
  list_find (λ c, name c = seg) (<[i := c']> cs)
  = list_find (λ c, name c = seg) cs.
Proof.
  revert i. induction cs as [|d cs IH]; intros [|i] Hi Hc Hc'; try done.
  - injection Hi as ->. change (<[0 := c']> (c :: cs)) with (c' :: cs).
    by rewrite !list_find_name_cons, !decide_False by done.
  - change (<[S i := c']> (d :: cs)) with (d :: <[i := c']> cs).
    rewrite !list_find_name_cons.
    destruct (decide (name d = seg)); [done|].
    cbn in Hi. by rewrite (IH i).
Qed.

Lemma list_find_push_other cs seg c' :
  name c' ≠ seg →
  list_find (λ c, name c = seg) (cs ++ [c'])
  = list_find (λ c, name c = seg) cs.
Proof.
  intros Hc'. induction cs as [|d cs IH]; cbn [app].
  - by rewrite list_find_name_cons, decide_False by done.
  - rewrite !list_find_name_cons.
    destruct (decide (name d = seg)); [done|]. by rewrite IH.
Qed.

Lemma putChild_find_other cs f seg :
  seg ≠ name f →
  list_find (λ c, name c = seg) (putChild cs f)
  = list_find (λ c, name c = seg) cs.
Proof.
  intros Hseg. unfold putChild.
  destruct (list_find (λ c, name c = name f) cs) as [[i c]|] eqn:Hfind.
  - apply list_find_name_Some in Hfind as (Hi & Hc & _).
    apply (list_find_insert_other cs seg i c f); congruence.
  - apply list_find_push_other. congruence.
Qed.

(** A write along one path is not seen along a path that leaves it. *)
Lemma writeAt_diverge common n s s' q' p' old m :
  s ≠ s' →
  findNode_from n (common ++ s' :: p') = Some old →
  name m = name old →
  findNode_from (writeAt n (common ++ s' :: p') m) (common ++ s :: q')
  = findNode_from n (common ++ s :: q').
Proof.
  intros Hne. revert n.
  induction common as [|c0 common IH]; intros n Hold Hname.
  - cbn [app] in *. cbn [writeAt findNode_from] in *.
    destruct (children n) as [cs|] eqn:Hcs; [|by rewrite Hcs].
    destruct (list_find (λ c, name c = s') cs) as [[i next]|] eqn:Hfind;
      [|by rewrite Hcs].
    cbn [children set_children].
    pose proof Hfind as (Hi & Hnext & _)%list_find_name_Some.
    rewrite (list_find_insert_other cs s i next); [done|done|congruence|].
    rewrite (writeAt_name next p' old m) by done. congruence.
  - cbn [app] in *. cbn [writeAt findNode_from] in *.
    destruct (children n) as [cs|] eqn:Hcs; [|by rewrite Hcs].
    destruct (list_find (λ c, name c = c0) cs) as [[i next]|] eqn:Hfind;
      [|by rewrite Hcs, Hfind].
    cbn [children set_children].
    pose proof Hfind as (Hi & Hnext & _)%list_find_name_Some.
    erewrite list_find_overwrite; [by apply IH|done|].
    by rewrite (writeAt_name next (common ++ s' :: p') old m).
Qed.

(** After a successful [addFile], a path that leaves the path of the
    directory, or that enters the directory through a child with another
    name than the new node, leads where it led before. *)
Lemma addFile_frame dirPath f this dir :
  resolvedNode dirPath this = Some dir →
  type dir = directory →
  let parts := resolvedParts dirPath this in
  let root' := root (snd (addFile dirPath f this)) in
  (∀ common s s' q' p',
     parts = common ++ s' :: p' → s ≠ s' →
     findNode_from root' (common ++ s :: q')
     = findNode_from (root this) (common ++ s :: q'))
  ∧ (∀ s r, s ≠ name f →
       findNode_from root' (parts ++ s :: r)
       = findNode_from (root this) (parts ++ s :: r)).
Proof.
  intros Hdir Htype parts root'.
  assert (findNode_from (root this) parts = Some dir) as Hfound
    by (by rewrite <- Hdir).
  subst root'. rewrite addFile_run, Hdir, Htype, bool_decide_eq_true_2 by done.
  cbn [snd root]. fold parts. split.
  - intros common s s' q' p' Hparts Hne. rewrite Hparts in *.
    by apply (writeAt_diverge common _ s s' q' p' dir).
  - intros s r Hs.
    rewrite !findNode_from_app, Hfound.
    rewrite (findNode_from_writeAt _ _ dir) by done.
    cbn [findNode_from children set_children].
    rewrite putChild_find_other by done.
    destruct (children dir) as [cs|]; done.
Qed.

End AddFileFrame.

(** C3. For every path string, node to add and state: when the path does
    not resolve to a directory, [addFile] returns [false] and the state,
    tree and cursor, is unchanged; when it resolves to a directory,
    [addFile] returns [true], the cursor is unchanged, and the node found at
    the same path in the new tree is that directory with a new children
    sequence and every other property as before.  The new children are: if
    a child has the name of the new node, the old ones with the first such
    child (the only one where sibling names are unique, see
    [unique_names_first]) overwritten where it stands (same length, same
    neighbours); if none has, the old ones with the new node pushed at the
    end (length plus one).  A directory without a [children] property
    counts as one without children.  The rest of the tree is as before:
    a path that leaves the path of the directory, and a path that enters
    the directory through a child of another name than the new node's,
    lead where they led. *)
Theorem addFile_semantics
    (dirPath : string) (f : FileSystemNode) (this : MockSystem) :
  match resolvedNode dirPath this with
  | None => addFile dirPath f this = (false, this)
  | Some dir =>
      match type dir with
      | file => addFile dirPath f this = (false, this)
      | directory =>
          let cs := default [] (children dir) in
          ∃ (cs' : list FileSystemNode) (root' dir' : FileSystemNode),
            addFile dirPath f this = (true, mkSys root' (currentPath this))
            ∧ findNode_from root' (resolvedParts dirPath this) = Some dir'
            ∧ children dir' = Some cs'
            ∧ (name dir' = name dir ∧ type dir' = directory
               ∧ content dir' = content dir
               ∧ permissions dir' = permissions dir
               ∧ owner dir' = owner dir ∧ size dir' = size dir
               ∧ date dir' = date dir)
            ∧ (∀ i c, cs !! i = Some c → name c = name f →
                 (∀ j c', j < i → cs !! j = Some c' → name c' ≠ name f) →
                 cs' = <[i := f]> cs
                 ∧ length cs' = length cs
                 ∧ cs' !! i = Some f
                 ∧ ∀ j, j ≠ i → cs' !! j = cs !! j)
            ∧ ((∀ c, c ∈ cs → name c ≠ name f) →
                 cs' = cs ++ [f] ∧ length cs' = S (length cs)
                 ∧ cs' !! length cs = Some f
                 ∧ ∀ j, j < length cs → cs' !! j = cs !! j)
            ∧ (∀ common s s' q' p',
                 resolvedParts dirPath this = common ++ s' :: p' → s ≠ s' →
                 findNode_from root' (common ++ s :: q')
                 = findNode_from (root this) (common ++ s :: q'))
            ∧ (∀ s r, s ≠ name f →
                 findNode_from root' (resolvedParts dirPath this ++ s :: r)
                 = findNode_from (root this)
                     (resolvedParts dirPath this ++ s :: r))
      end
  end.
Proof.
  rewrite addFile_run.
  destruct (resolvedNode dirPath this) as [dir|] eqn:Hdir; [|done].
  destruct (type dir) eqn:Htype; [done|].
  rewrite bool_decide_eq_true_2 by done. cbv zeta.
  pose proof (addFile_frame dirPath f this dir Hdir Htype) as Hframe.
  cbv zeta in Hframe.
  rewrite addFile_run, Hdir, Htype, bool_decide_eq_true_2 in Hframe by done.
  cbn [snd root] in Hframe. destruct Hframe as [Hleave Hother].
  set (cs := default [] (children dir)).
  exists (putChild cs f). eexists. exists (set_children dir (putChild cs f)).
  split_and!; [..|exact Hleave|exact Hother].
  - reflexivity.
  - apply (findNode_from_writeAt _ _ dir); [|done].
    by rewrite <- resolvedNode_parts.
  - reflexivity.
  - reflexivity.
  - exact Htype.
  - reflexivity.
  - reflexivity.
  - reflexivity.
  - reflexivity.
  - reflexivity.
  - intros i c Hi Hc Hmin.
    rewrite (putChild_overwrite cs f i c) by done.
    split_and!; [done|by rewrite length_insert| |].
    + apply list_lookup_insert_eq. by eapply lookup_lt_Some.
    + intros j Hj. by rewrite list_lookup_insert_ne.
  - intros Hno. rewrite putChild_push by done.
    split_and!; [done| | |].
    + rewrite length_app. simpl. lia.
    + by rewrite lookup_app_r, Nat.sub_diag by lia.
    + intros j Hj. by rewrite lookup_app_l.
Qed.

(** C10. The overwrite of [addFile] does not look at the kind of the child
    it replaces.  For every directory the path resolves to and every child
    [c] of it, file or directory, that is the first child with the name of
    the new node [f]: [addFile] returns [true] and puts [f] where [c] was;
    every path that went through [c] before now goes through [f], so the
    subtree of [c] is no longer reachable, and below an [f] without
    children nothing is found at all. *)
Theorem addFile_overwrites_any_kind
    (dirPath : string) (f : FileSystemNode) (this : MockSystem)
    (dir : FileSystemNode) (cs : list FileSystemNode)
    (i : nat) (c : FileSystemNode) :
  resolvedNode dirPath this = Some dir →
  type dir = directory →
  children dir = Some cs →
  cs !! i = Some c →
  name c = name f →
  (∀ j c', j < i → cs !! j = Some c' → name c' ≠ name f) →
  let parts := resolvedParts dirPath this in
  ∃ root' : FileSystemNode,
    addFile dirPath f this = (true, mkSys root' (currentPath this))
    ∧ findNode_from root' parts = Some (set_children dir (<[i := f]> cs))
    ∧ (∀ rest, findNode_from (root this) (parts ++ name f :: rest)
               = findNode_from c rest)
    ∧ (∀ rest, findNode_from root' (parts ++ name f :: rest)
               = findNode_from f rest)
    ∧ (children f = None →
       ∀ seg rest,
         findNode_from root' (parts ++ name f :: seg :: rest) = None).
Proof.
  intros Hdir Htype Hcs Hi Hc Hmin parts.
  assert (findNode_from (root this) parts = Some dir) as Hfound
    by (by rewrite <- Hdir).
  rewrite addFile_run, Hdir, Htype, bool_decide_eq_true_2 by done.
  rewrite Hcs. cbn [default from_option id].
  rewrite (putChild_overwrite cs f i c) by done.
  eexists. split; [reflexivity|].
  assert (findNode_from
            (writeAt (root this) parts (set_children dir (<[i := f]> cs)))
            parts = Some (set_children dir (<[i := f]> cs))) as Hnew
    by (by apply (findNode_from_writeAt _ _ dir)).
  assert (∀ rest,
            findNode_from
              (writeAt (root this) parts (set_children dir (<[i := f]> cs)))
              (parts ++ name f :: rest) = findNode_from f rest) as Hbelow.
  { intros rest. rewrite findNode_from_app, Hnew.
    cbn [findNode_from children set_children].
    by rewrite (list_find_overwrite cs (name f) i c f)
      by (done || by apply list_find_name_Some). }
  split_and!; [done| |done|].
  - intros rest. rewrite findNode_from_app, Hfound.
    cbn [findNode_from]. rewrite Hcs.
    by rewrite (proj2 (list_find_name_Some cs (name f) i c)).
  - intros Hleaf seg rest. rewrite Hbelow. cbn [findNode_from].
    by rewrite Hleaf.
Qed.

Lemma addFile_overwrites_any_kind_witness :
  ∃ root' : FileSystemNode,
    addFile "/home" (fileNode "user" "-rw-r--r--" "user" "1" "Oct 28 08:00" "x")
            new_MockSystem
    = (true, mkSys root' ["home"; "user"])
    ∧ findNode_from (root new_MockSystem) ["home"; "user"; "documents"]
      ≠ None
    ∧ findNode_from root' ["home"; "user"; "documents"] = None.
Proof.
  set (f := fileNode "user" "-rw-r--r--" "user" "1" "Oct 28 08:00" "x").
  set (user :=
    default f (findNode_from initialFileSystem ["home"; "user"])).
  set (home := default f (findNode_from initialFileSystem ["home"])).
  destruct (addFile_overwrites_any_kind "/home" f new_MockSystem
              home [user] 0 user)
    as (root' & Hrun & _ & _ & _ & Hgone);
    [reflexivity|reflexivity|reflexivity|reflexivity|reflexivity| |].
  - intros j c' Hj. lia.
  - exists root'. split; [exact Hrun|]. split; [discriminate|].
    exact (Hgone eq_refl "documents" []).
Defined.

(** Two uploads into [/etc] of the seed: a new name, then the same name. *)
Example addFile_on_seed :
  let f := fileNode "hosts" "-rw-r--r--" "user" "2" "Oct 28 08:00" "a" in
  let g := fileNode "passwd" "-rw-r--r--" "user" "2" "Oct 28 08:00" "b" in
  let this1 := snd (addFile "/etc" f new_MockSystem) in
  let this2 := snd (addFile "../../etc" g this1) in
  fst (addFile "/etc" f new_MockSystem) = true
  ∧ fst (executeCommand "ls /etc" this1) = "passwd  hosts"
  ∧ fst (executeCommand "ls /etc" this2) = "passwd  hosts"
  ∧ fst (executeCommand "cat /etc/passwd" this2) = "b"
  ∧ addFile "/etc/passwd" f new_MockSystem = (false, new_MockSystem)
  ∧ addFile "/nowhere" f new_MockSystem = (false, new_MockSystem).
Proof. by vm_compute. Qed.

(** ** The working array and the cursor *)

Section ByRefFacts.

Implicit Types (h : ByRef.Heap) (r l : ByRef.Ref).

Lemma byref_step_length r h part :
  length (ByRef.resolveStep r h part) = length h.
Proof.
  unfold ByRef.resolveStep, ByRef.push, ByRef.pop.
  repeat case_bool_decide; by rewrite ?length_insert.
Qed.

Lemma byref_step_other r h part l :
  l ≠ r → ByRef.resolveStep r h part !! l = h !! l.
Proof.
  intros Hl. unfold ByRef.resolveStep, ByRef.push, ByRef.pop.
  repeat case_bool_decide; by rewrite ?list_lookup_insert_ne by congruence.
Qed.

Lemma byref_step_deref r h part :
  r < length h →
  ByRef.deref (ByRef.resolveStep r h part) r
  = resolveStep (ByRef.deref h r) part.
Proof.
  intros Hr. unfold ByRef.resolveStep, resolveStep, ByRef.push, ByRef.pop.
  repeat case_bool_decide; try done;
    unfold ByRef.deref at 1; by rewrite list_lookup_insert_eq by done.
Qed.

(** The loop writes into the working array only, and what it leaves there
    is what the value-level loop computes. *)
Lemma byref_loop parts r h :
  r < length h →
  let h' := fold_left (ByRef.resolveStep r) parts h in
  length h' = length h
  ∧ (∀ l, l ≠ r → h' !! l = h !! l)
  ∧ ByRef.deref h' r = fold_left resolveStep parts (ByRef.deref h r).
Proof.
  revert h. induction parts as [|part parts IH]; intros h Hr; [done|].
  cbn [fold_left].
  destruct (IH (ByRef.resolveStep r h part)) as (Hlen & Hother & Hderef).
  { by rewrite byref_step_length. }
  split_and!.
  - by rewrite Hlen, byref_step_length.
  - intros l Hl. by rewrite Hother, byref_step_other.
  - by rewrite Hderef, byref_step_deref.
Qed.

(** [resolvePath] by reference: every array that existed before the call,
    the one of the cursor among them, is as it was; the array returned is a
    new one; and node and segments are those of the value-level model. *)
Lemma byref_resolvePath pathStr (this : ByRef.Object) h :
  let '((node, targetPath), h') := ByRef.resolvePath pathStr this h in
  (∀ l, l < length h → h' !! l = h !! l)
  ∧ length h ≤ targetPath
  ∧ (node, ByRef.deref h' targetPath)
    = fst (resolvePath pathStr (ByRef.valueOf this h)).
Proof.
  unfold ByRef.resolvePath, ByRef.alloc.
  set (parts := List.filter _ _).
  set (h1 := h ++ [[]]).
  set (start := if startsWith "/" pathStr then []
                else ByRef.deref h1 (ByRef.currentPath this)).
  assert ((if startsWith "/" pathStr then (length h1, h1 ++ [[]])
           else (length h1,
                 h1 ++ [ByRef.deref h1 (ByRef.currentPath this)]))
          = (length h1, h1 ++ [start])) as ->
    by (subst start; by destruct (startsWith "/" pathStr)).
  destruct (byref_loop parts (length h1) (h1 ++ [start]))
    as (Hlen & Hother & Hderef).
  { rewrite length_app. simpl. lia. }
  assert (length h1 = S (length h)) as Hh1
    by (subst h1; rewrite length_app; simpl; lia).
  split_and!.
  - intros l Hl. rewrite Hother by lia.
    rewrite lookup_app_l by lia. subst h1. by rewrite lookup_app_l.
  - lia.
  - assert (ByRef.deref (h1 ++ [start]) (length h1) = start) as Hstart
      by (unfold ByRef.deref; by rewrite list_lookup_middle).
    rewrite Hderef, Hstart.
    rewrite resolvePath_run. cbn [fst].
    rewrite resolvedNode_parts.
    assert (resolvedParts pathStr (ByRef.valueOf this h)
            = fold_left resolveStep parts start) as ->; [|done].
    unfold resolvedParts, resolvePath, bind, getCurrentPath, findNode,
      getRoot, ret, ByRef.valueOf. cbn [fst snd currentPath].
    fold parts. f_equal. subst start.
    destruct (startsWith "/" pathStr); [done|].
    unfold ByRef.deref. subst h1.
    destruct (decide (ByRef.currentPath this < length h)) as [Hin|Hout].
    + by rewrite lookup_app_l.
    + rewrite (lookup_ge_None_2 h) by lia.
      destruct (decide (ByRef.currentPath this = length h)) as [->|].
      * by rewrite list_lookup_middle.
      * rewrite lookup_ge_None_2; [done|]. rewrite length_app. simpl. lia.
Qed.

End ByRefFacts.

(** ** The resolver as a pure function (C7) *)

(** C7. [resolvePath] returns the state it was given, tree and cursor, so a
    second call with the same string gives the same result as the first.
    Read by reference, the call writes into a new array only: every array
    that existed before, the one of the cursor among them, is as it was.
    And for a path string that starts with ['/'] the result, node and
    segment list, is the same whatever the cursor is (in particular when
    the path names an existing node). *)
Theorem resolvePath_pure (pathStr : string) (this : MockSystem) :
  snd (resolvePath pathStr this) = this
  ∧ fst (resolvePath pathStr (snd (resolvePath pathStr this)))
    = fst (resolvePath pathStr this)
  ∧ (∀ (obj : ByRef.Object) (h : ByRef.Heap),
       ByRef.currentPath obj < length h →
       ByRef.valueOf obj h = this →
       let '((node, targetPath), h') := ByRef.resolvePath pathStr obj h in
       (∀ l, l < length h → h' !! l = h !! l)
       ∧ ByRef.valueOf obj h' = this
       ∧ (node, ByRef.deref h' targetPath) = fst (resolvePath pathStr this))
  ∧ (startsWith "/" pathStr = true →
     ∀ cwd : list string,
       fst (resolvePath pathStr (mkSys (root this) cwd))
       = fst (resolvePath pathStr this)).
Proof.
  split_and!; [done|done| |].
  - intros obj h Hvalid <-.
    pose proof (byref_resolvePath pathStr obj h) as Href.
    destruct (ByRef.resolvePath pathStr obj h) as [[node targetPath] h'].
    destruct Href as (Hsame & _ & Hresult).
    split_and!; [done| |done].
    unfold ByRef.valueOf, ByRef.deref. by rewrite Hsame.
  - intros Habs cwd. rewrite !resolvePath_run. cbn [fst].
    rewrite !resolvedNode_parts, !resolvedParts_spec, Habs. done.
Qed.

Lemma resolvePath_pure_witness :
  startsWith "/" "/var/../etc/./passwd" = true
  ∧ fst (resolvePath "/var/../etc/./passwd"
           (mkSys initialFileSystem ["var"; "log"]))
    = fst (resolvePath "/var/../etc/./passwd" new_MockSystem).
Proof.
  split; [reflexivity|].
  destruct (resolvePath_pure "/var/../etc/./passwd" new_MockSystem)
    as (_ & _ & _ & Habs).
  exact (Habs eq_refl ["var"; "log"]).
Defined.

(** A relative path read by reference: the cursor array is where it was and
    holds what it held, the result is in a new array. *)
Example byref_relative :
  let h := [["home"; "user"]] in
  let obj := ByRef.mkObject initialFileSystem 0 in
  snd (fst (ByRef.resolvePath "../../etc/./passwd" obj h)) = 2
  ∧ snd (ByRef.resolvePath "../../etc/./passwd" obj h)
    = [["home"; "user"]; []; ["etc"; "passwd"]].
Proof. by vm_compute. Qed.

(** * Further properties of the code *)

(** ** [split] and [join] on ['/'] *)

Section SplitJoinFacts.

Lemma append_cons (p : string) (c : ascii) (q : string) :
  p +:+ String c "" +:+ q = p +:+ String c q.
Proof. reflexivity. Qed.

(** Splitting distributes over a separator. *)
Lemma split_app c p q :
  split c (p +:+ String c q) = split c p ++ split c q.
Proof.
  induction p as [|x p IH].
  { change ("" +:+ String c q) with (String c q).
    cbn [split]. by rewrite bool_decide_eq_true_2. }
  change (String x p +:+ String c q) with (String x (p +:+ String c q)).
  cbn [split]. rewrite IH.
  case_bool_decide; [done|].
  pose proof (split_nonnil c p). by destruct (split c p).
Qed.

Lemma split_no_sep c s : occurs c s = false → split c s = [s].
Proof.
  induction s as [|x r IH]; [done|]. cbn [occurs split].
  intros [Hx Hr]%orb_false_elim. rewrite Hx, IH; done.
Qed.

Lemma split_pieces_no_sep c s :
  Forall (λ piece, occurs c piece = false) (split c s).
Proof.
  induction s as [|x r IH]; cbn [split]; [by repeat constructor|].
  case_bool_decide as Hx; [by constructor|].
  destruct (split c r) as [|piece pieces]; [by repeat constructor; cbn;
    rewrite bool_decide_eq_false_2|].
  apply Forall_cons in IH as [Hpiece Hpieces].
  constructor; [|done]. cbn [occurs].
  by rewrite bool_decide_eq_false_2, Hpiece.
Qed.

(** Joining and splitting again gives the pieces back. *)
Lemma split_join c (segs : list string) :
  segs ≠ [] → Forall (λ seg, occurs c seg = false) segs →
  split c (join (String c "") segs) = segs.
Proof.
  induction segs as [|seg segs IH]; [done|]. intros _ Hall.
  apply Forall_cons in Hall as [Hseg Hsegs].
  destruct segs as [|seg' segs']; [by apply split_no_sep|].
  change (join (String c "") (seg :: seg' :: segs'))
    with (seg +:+ String c "" +:+ join (String c "") (seg' :: segs')).
  rewrite append_cons, split_app, split_no_sep by done.
  by rewrite IH.
Qed.

End SplitJoinFacts.

(** ** The cursor and [pwd] *)

Section CursorFacts.

Implicit Types (segs cwd : list string).

Lemma wfSegment_kept seg :
  wfSegment seg →
  nonempty seg && negb (bool_decide (seg = ".")) = true.
Proof.
  intros (Hne & Hdot & _ & _). destruct seg; [done|].
  by rewrite bool_decide_eq_false_2.
Qed.

Lemma filter_wfSegments segs :
  Forall wfSegment segs →
  List.filter (λ p, nonempty p && negb (bool_decide (p = "."))) segs = segs.
Proof.
  induction 1 as [|seg segs Hseg _ IH]; [done|].
  cbn [List.filter]. by rewrite wfSegment_kept, IH.
Qed.

(** Without ['..'], the loop of [resolvePath] appends. *)
Lemma resolve_loop_wfSegments segs work :
  Forall wfSegment segs → fold_left resolveStep segs work = work ++ segs.
Proof.
  intros Hall. revert work.
  induction Hall as [|seg segs (_ & _ & Hdd & _) _ IH]; intros work.
  - by rewrite app_nil_r.
  - cbn [fold_left]. unfold resolveStep at 2.
    rewrite bool_decide_eq_false_2 by done.
    by rewrite IH, <- app_assoc.
Qed.

(** What the loop of [resolvePath] keeps: the working list holds
    well-formed segments only. *)
Lemma resolve_loop_keeps_wf parts work :
  Forall (λ p, occurs "/" p = false) parts →
  Forall wfSegment work →
  Forall wfSegment
    (fold_left resolveStep
       (List.filter (λ p, nonempty p && negb (bool_decide (p = "."))) parts)
       work).
Proof.
  intros Hparts. revert work.
  induction Hparts as [|part parts Hpart _ IH]; intros work Hwork; [done|].
  cbn [List.filter].
  destruct (nonempty part && negb (bool_decide (part = "."))) eqn:Hkeep;
    [|by apply IH].
  cbn [fold_left]. apply IH. unfold resolveStep.
  apply andb_prop in Hkeep as [Hne Hdot].
  apply negb_true_iff, bool_decide_eq_false in Hdot.
  case_bool_decide as Hdd.
  - case_bool_decide; [|done].
    rewrite removelast_firstn_len. by apply Forall_take.
  - apply Forall_app. split; [done|]. repeat constructor; try done.
    by destruct part.
Qed.

Lemma resolvedParts_wf pathStr this :
  Forall wfSegment (currentPath this) →
  Forall wfSegment (resolvedParts pathStr this).
Proof.
  intros Hcwd. unfold resolvedParts, resolvePath, bind, getCurrentPath,
    findNode, getRoot, ret. cbn [fst snd].
  apply resolve_loop_keeps_wf; [apply split_pieces_no_sep|].
  by destruct (startsWith "/" pathStr).
Qed.

Lemma home_user_wf : Forall wfSegment ["home"; "user"].
Proof. by repeat constructor. Qed.

(** The absolute string of a list of well-formed segments resolves to
    that list, whatever the cursor. *)
Lemma resolvedParts_absolute segs this :
  Forall wfSegment segs →
  resolvedParts ("/" +:+ join "/" segs) this = segs.
Proof.
  intros Hall.
  unfold resolvedParts, resolvePath, bind, getCurrentPath, findNode, getRoot,
    ret. cbn [fst snd].
  change ("/" +:+ join "/" segs) with (String "/" (join "/" segs)).
  cbn [startsWith split]. rewrite !bool_decide_eq_true_2 by done.
  cbn [List.filter nonempty andb].
  destruct segs as [|seg segs']; [done|].
  rewrite split_join; [|done|].
  - by rewrite filter_wfSegments, resolve_loop_wfSegments.
  - eapply Forall_impl; [exact Hall|]. by intros ? (_ & _ & _ & ?).
Qed.

End CursorFacts.

Lemma cursor_wf_step line this :
  Forall wfSegment (currentPath this) →
  Forall wfSegment (currentPath (snd (executeCommand line this))).
Proof.
  intros Hcwd.
  destruct (decide (tokens line !! 0 = Some "cd")) as [Hcd|Hcd];
    [|by rewrite executeCommand_not_cd].
  rewrite executeCommand_cd by done. cbv zeta.
  destruct (negb _); [apply home_user_wf|].
  destruct (resolvedNode _ _) as [node|]; [|done].
  destruct (bool_decide _); [done|]. by apply resolvedParts_wf.
Qed.

(** X1. The cursor only ever holds well-formed segments: if every segment
    of the cursor is a non-empty name without ['/'] other than ['.'] and
    ['..'], the same holds after any command line. *)
Theorem executeCommand_keeps_cursor_wf (line : string) (this : MockSystem) :
  Forall wfSegment (currentPath this) →
  Forall wfSegment (currentPath (snd (executeCommand line this))).
Proof.
  intros Hcwd.
  destruct (decide (tokens line !! 0 = Some "cd")) as [Hcd|Hcd];
    [|by rewrite executeCommand_not_cd].
  rewrite executeCommand_cd by done. cbv zeta.
  destruct (negb _); [apply home_user_wf|].
  destruct (resolvedNode _ _) as [node|]; [|done].
  destruct (bool_decide _); [done|]. by apply resolvedParts_wf.
Qed.

Lemma executeCommand_keeps_cursor_wf_witness :
  Forall wfSegment (currentPath new_MockSystem)
  ∧ Forall wfSegment
      (currentPath (snd (executeCommand "cd ../user/./documents"
                                        new_MockSystem))).
Proof.
  assert (Forall wfSegment (currentPath new_MockSystem)) as Hcwd
    by (repeat constructor; discriminate).
  split; [exact Hcwd|].
  exact (executeCommand_keeps_cursor_wf "cd ../user/./documents"
           new_MockSystem Hcwd).
Defined.

(** X2. [pwd] and the resolver are inverse to each other on a well-formed
    cursor: resolving the string that [getCurrentPathString] returns gives
    the cursor back, with the node the cursor names, from any cursor. *)
Theorem pwd_resolves_to_cursor (this : MockSystem) (cwd' : list string) :
  Forall wfSegment (currentPath this) →
  resolvePath (fst (getCurrentPathString this)) (mkSys (root this) cwd')
  = ((findNode_from (root this) (currentPath this), currentPath this),
     mkSys (root this) cwd').
Proof.
  intros Hcwd. rewrite resolvePath_run, resolvedNode_parts.
  change (fst (getCurrentPathString this))
    with ("/" +:+ join "/" (currentPath this)).
  by rewrite resolvedParts_absolute.
Qed.

Lemma pwd_resolves_to_cursor_witness :
  Forall wfSegment (currentPath new_MockSystem)
  ∧ snd (fst (resolvePath (fst (getCurrentPathString new_MockSystem))
                (mkSys (root new_MockSystem) ["var"; "log"])))
    = ["home"; "user"].
Proof.
  assert (Forall wfSegment (currentPath new_MockSystem)) as Hcwd
    by (repeat constructor; discriminate).
  split; [exact Hcwd|].
  exact (f_equal (λ r, snd (fst r))
           (pwd_resolves_to_cursor new_MockSystem ["var"; "log"] Hcwd)).
Defined.

(** ** Paths compose *)

Section ComposeFacts.

Lemma startsWith_append c p q :
  p ≠ "" → startsWith c (p +:+ q) = startsWith c p.
Proof. by destruct p. Qed.

(** Resolving [p/q], for a relative [q], is resolving [q] from where [p]
    leads. *)
Lemma resolvedParts_compose p q this :
  p ≠ "" → startsWith "/" q = false →
  resolvedParts (p +:+ "/" +:+ q) this
  = resolvedParts q (mkSys (root this) (resolvedParts p this)).
Proof.
  intros Hp Hq.
  unfold resolvedParts, resolvePath, bind, getCurrentPath, findNode, getRoot,
    ret. cbn [fst snd currentPath].
  rewrite append_cons, split_app, List.filter_app, fold_left_app.
  by rewrite startsWith_append, Hq.
Qed.

End ComposeFacts.

(** X3. Two [cd]s compose: when [cd p] succeeds and [q] is a relative
    path, [p/q] resolves from the start to what [q] resolves to after
    [cd p]; so if that is a directory, [cd q] after [cd p] gives the output
    and the state that [cd p/q] gives at once, and if it is not, both fail,
    the one leaving the cursor on [p] and the other leaving it where it
    was. *)
Theorem cd_compose
    (l1 l2 l12 p q : string) (this : MockSystem) (dir : FileSystemNode) :
  tokens l1 = ["cd"; p] →
  tokens l2 = ["cd"; q] →
  tokens l12 = ["cd"; p +:+ "/" +:+ q] →
  startsWith "/" q = false →
  resolvedNode p this = Some dir →
  type dir = directory →
  let this1 := snd (executeCommand l1 this) in
  let bothFail :=
    executeCommand l2 this1
    = ("cd: " +:+ q +:+ ": No such file or directory", this1)
    ∧ executeCommand l12 this
      = ("cd: " +:+ (p +:+ "/" +:+ q) +:+ ": No such file or directory",
         this) in
  resolvePath q this1 = (fst (resolvePath (p +:+ "/" +:+ q) this), this1)
  ∧ match resolvedNode (p +:+ "/" +:+ q) this with
    | Some node =>
        match type node with
        | directory => executeCommand l2 this1 = executeCommand l12 this
        | file => bothFail
        end
    | None => bothFail
    end.
Proof.
  intros H1 H2 H12 Hq Hdir Htype this1 bothFail. subst bothFail.
  assert (p ≠ "") as Hp
    by (apply (tokens_lookup_nonempty l1 1); [by rewrite H1|lia]).
  assert (this1 = mkSys (root this) (resolvedParts p this)) as Hthis1.
  { subst this1. rewrite (executeCommand_cd l1) by (by rewrite H1).
    cbv zeta. rewrite H1. cbn [lookup list_lookup].
    assert (truthy (Some p) = true) as -> by (by destruct p).
    cbn [negb interpolate]. rewrite Hdir, Htype.
    by rewrite bool_decide_eq_false_2 by (by intros ?). }
  assert (resolvePath q this1
          = (fst (resolvePath (p +:+ "/" +:+ q) this), this1)) as Hsame.
  { rewrite !resolvePath_run. cbn [fst].
    rewrite !resolvedNode_parts, (resolvedParts_compose p q this) by done.
    by rewrite Hthis1. }
  split; [done|].
  assert (resolvedNode q this1 = resolvedNode (p +:+ "/" +:+ q) this
          ∧ resolvedParts q this1 = resolvedParts (p +:+ "/" +:+ q) this)
    as [Hnode Hparts].
  { rewrite !resolvePath_run in Hsame. by injection Hsame as -> ->. }
  assert (q ≠ "") as Hq'
    by (apply (tokens_lookup_nonempty l2 1); [by rewrite H2|lia]).
  rewrite (executeCommand_cd l2), (executeCommand_cd l12)
    by (by rewrite ?H2, ?H12).
  cbv zeta. rewrite H2, H12. cbn [lookup list_lookup].
  assert (truthy (Some q) = true) as -> by (by destruct q).
  assert (truthy (Some (p +:+ "/" +:+ q)) = true) as -> by (by destruct p).
  cbn [negb interpolate]. rewrite Hnode, Hparts.
  destruct (resolvedNode (p +:+ "/" +:+ q) this) as [node|]; [|done].
  destruct (type node) eqn:Hnt.
  - by rewrite bool_decide_eq_true_2 by done.
  - rewrite bool_decide_eq_false_2 by (by intros ?).
    by rewrite Hthis1.
Qed.

Lemma cd_compose_witness :
  executeCommand "cd user/documents"
    (snd (executeCommand "cd /home" new_MockSystem))
  = executeCommand "cd /home/user/documents" new_MockSystem.
Proof.
  set (home := default initialFileSystem
                 (findNode_from initialFileSystem ["home"])).
  destruct (cd_compose "cd /home" "cd user/documents"
              "cd /home/user/documents" "/home" "user/documents"
              new_MockSystem home
              eq_refl eq_refl eq_refl eq_refl eq_refl eq_refl)
    as [_ Hrun].
  exact Hrun.
Defined.

(** ** Going up *)

Section DotDotFacts.

Lemma resolvedParts_dotdot this :
  resolvedParts ".." this = removelast (currentPath this).
Proof.
  unfold resolvedParts, resolvePath, bind, getCurrentPath, findNode, getRoot,
    ret. cbn [fst snd].
  change (startsWith "/" "..") with false.
  change (List.filter (λ p, nonempty p && negb (bool_decide (p = ".")))
            (split "/" "..")) with [".."].
  cbn [fold_left]. unfold resolveStep. rewrite bool_decide_eq_true_2 by done.
  case_bool_decide as Hlen; [done|].
  destruct (currentPath this); [done|]. simpl in Hlen. lia.
Qed.

Lemma removelast_take {A} (l : list A) k :
  k ≤ length l → removelast (take k l) = take (k - 1) l.
Proof.
  intros Hk. rewrite removelast_firstn_len, length_take, take_take.
  f_equal. lia.
Qed.

Lemma executeCommand_cd_dotdot line this :
  tokens line = ["cd"; ".."] →
  executeCommand line this =
    match findNode_from (root this) (removelast (currentPath this)) with
    | Some node =>
        match type node with
        | directory => ("", mkSys (root this) (removelast (currentPath this)))
        | file => ("cd: ..: No such file or directory", this)
        end
    | None => ("cd: ..: No such file or directory", this)
    end.
Proof.
  intros Htokens.
  rewrite executeCommand_cd by (by rewrite Htokens). cbv zeta.
  rewrite Htokens. cbn [lookup list_lookup truthy nonempty negb interpolate].
  rewrite resolvedNode_parts, resolvedParts_dotdot.
  destruct (findNode_from _ _) as [node|]; [|done].
  destruct (type node) eqn:Htype.
  - by rewrite bool_decide_eq_true_2 by done.
  - by rewrite bool_decide_eq_false_2 by (by intros ?).
Qed.

End DotDotFacts.

(** X4. [cd ..] moves the cursor to the list without its last segment when
    that names a directory, and otherwise reports the failure and leaves the
    state alone; at the root the list without its last segment is the root
    again. *)
Theorem cd_dotdot (line : string) (this : MockSystem) :
  tokens line = ["cd"; ".."] →
  let parent := removelast (currentPath this) in
  executeCommand line this =
    match findNode_from (root this) parent with
    | Some node =>
        match type node with
        | directory => ("", mkSys (root this) parent)
        | file => ("cd: ..: No such file or directory", this)
        end
    | None => ("cd: ..: No such file or directory", this)
    end
  ∧ (currentPath this = [] → parent = []).
Proof.
  intros Htokens parent. split; [|subst parent; by intros ->].
  by apply executeCommand_cd_dotdot.
Qed.

Lemma cd_dotdot_witness :
  executeCommand "cd .." new_MockSystem
  = ("", mkSys (root new_MockSystem) ["home"]).
Proof. exact (proj1 (cd_dotdot "cd .." new_MockSystem eq_refl)). Defined.

(** X5. Repeating [cd ..] from a cursor all of whose ancestors are
    directories walks up one segment at a time, reaches the root after as
    many steps as the cursor has segments, and stays there. *)
Theorem cd_dotdot_reaches_root
    (line : string) (this : MockSystem) (n : nat) :
  tokens line = ["cd"; ".."] →
  (∀ k, k < length (currentPath this) →
        ∃ node, findNode_from (root this) (take k (currentPath this))
                = Some node ∧ type node = directory) →
  Nat.iter n (λ t, snd (executeCommand line t)) this
  = mkSys (root this)
          (take (length (currentPath this) - n) (currentPath this)).
Proof.
  intros Htokens Hdirs. induction n as [|n IH].
  - cbn [Nat.iter]. rewrite Nat.sub_0_r, firstn_all. by destruct this.
  - rewrite Nat.iter_succ, IH.
    rewrite (executeCommand_cd_dotdot line) by done.
    cbn [root currentPath].
    rewrite removelast_take by lia.
    replace (length (currentPath this) - n - 1)
      with (length (currentPath this) - S n) by lia.
    destruct (decide (n < length (currentPath this))) as [Hlt|Hge].
    + destruct (Hdirs (length (currentPath this) - S n)) as (node & -> & ->);
        [lia|done].
    + replace (length (currentPath this) - S n) with 0 by lia.
      replace (length (currentPath this) - n) with 0 by lia.
      change (take 0 (currentPath this)) with (@nil string).
      cbn [findNode_from]. by destruct (type (root this)).
Qed.

Lemma cd_dotdot_reaches_root_witness :
  Nat.iter 5 (λ t, snd (executeCommand "cd .." t))
    (mkSys initialFileSystem ["home"; "user"; "documents"])
  = mkSys initialFileSystem [].
Proof.
  apply (cd_dotdot_reaches_root "cd .."
           (mkSys initialFileSystem ["home"; "user"; "documents"]) 5 eq_refl).
  intros k Hk. cbn [currentPath length] in Hk.
  destruct k as [|[|[|k]]]; [| | |lia];
    (eexists; split; [vm_compute; reflexivity|reflexivity]).
Defined.

(** ** The cursor and the tree *)

(** X6. [ls] without argument on a cursor that names no node (which
    [addFile] can bring about by overwriting an ancestor) prints the
    message for a missing path with the word [undefined] in it, and changes
    nothing. *)
Theorem ls_dangling_cursor (line : string) (this : MockSystem) :
  tokens line = ["ls"] →
  findNode_from (root this) (currentPath this) = None →
  executeCommand line this
  = ("ls: cannot access 'undefined': No such file or directory", this).
Proof.
  intros Htokens Hnone.
  rewrite executeCommand_ls by (by rewrite Htokens). cbv zeta.
  rewrite Htokens. cbn [lookup list_lookup truthy]. by rewrite Hnone.
Qed.

Lemma ls_dangling_cursor_witness :
  let f := fileNode "home" "-rw-r--r--" "user" "1" "Oct 28 08:00" "x" in
  let this1 := snd (addFile "/" f new_MockSystem) in
  fst (addFile "/" f new_MockSystem) = true
  ∧ executeCommand "ls" this1
    = ("ls: cannot access 'undefined': No such file or directory", this1).
Proof.
  intros f this1. split; [reflexivity|].
  exact (ls_dangling_cursor "ls" this1 eq_refl eq_refl).
Defined.

Lemma cursor_directory_step line this :
  cursorOnDirectory (mkSys (root this) ["home"; "user"]) →
  cursorOnDirectory this →
  cursorOnDirectory (snd (executeCommand line this)).
Proof.
  intros Hhome Hcwd.
  destruct (decide (tokens line !! 0 = Some "cd")) as [Hcd|Hcd];
    [|by rewrite executeCommand_not_cd].
  rewrite executeCommand_cd by done. cbv zeta.
  destruct (negb _); [done|].
  destruct (resolvedNode _ _) as [node|] eqn:Hnode; [|done].
  case_bool_decide as Htype; [done|].
  exists node. cbn [snd root currentPath].
  rewrite <- resolvedNode_parts. split; [done|]. by destruct (type node).
Qed.

(** X7. As long as [/home/user] is a directory of the tree, the commands
    keep the cursor on a directory: if the cursor names a directory before
    a command line, it names one after it. *)
Theorem executeCommand_keeps_cursor_on_directory
    (line : string) (this : MockSystem) :
  cursorOnDirectory (mkSys (root this) ["home"; "user"]) →
  cursorOnDirectory this →
  cursorOnDirectory (snd (executeCommand line this)).
Proof.
  intros Hhome Hcwd.
  destruct (decide (tokens line !! 0 = Some "cd")) as [Hcd|Hcd];
    [|by rewrite executeCommand_not_cd].
  rewrite executeCommand_cd by done. cbv zeta.
  destruct (negb _); [done|].
  destruct (resolvedNode _ _) as [node|] eqn:Hnode; [|done].
  case_bool_decide as Htype; [done|].
  exists node. cbn [snd root currentPath].
  rewrite <- resolvedNode_parts. split; [done|]. by destruct (type node).
Qed.

Lemma executeCommand_keeps_cursor_on_directory_witness :
  cursorOnDirectory (snd (executeCommand "cd /var/log" new_MockSystem)).
Proof.
  apply executeCommand_keeps_cursor_on_directory;
    (eexists; split; [vm_compute; reflexivity|reflexivity]).
Defined.

(** ** [echo] *)

Section EchoFacts.

Implicit Types (t s : string) (ts : list string).

Lemma splitSpaces_pieces_no_space s :
  Forall (λ t, hasSpace t = false) (splitSpaces s).
Proof.
  induction s as [|x r IH]; [by repeat constructor|].
  destruct (isSpace x) eqn:Hx.
  - rewrite splitSpaces_space by done.
    destruct r as [|y r']; [by repeat constructor|].
    destruct (isSpace y); [done|]. by constructor.
  - rewrite splitSpaces_other by done.
    destruct (splitSpaces r) as [|piece pieces];
      [by repeat constructor; cbn; rewrite Hx|].
    apply Forall_cons in IH as [Hpiece Hpieces].
    constructor; [|done]. cbn [hasSpace]. by rewrite Hx, Hpiece.
Qed.

Lemma tokens_clean line :
  tokens line = [""] ∨ Forall cleanToken (tokens line).
Proof.
  destruct (tokens_shape line) as [?|Hne]; [by left|]. right.
  pose proof (splitSpaces_pieces_no_space (trim line)) as Hns.
  fold (tokens line) in Hns. rewrite Forall_forall in Hne, Hns |- *.
  intros t Ht. split; auto.
Qed.

Lemma splitSpaces_no_space t : hasSpace t = false → splitSpaces t = [t].
Proof.
  induction t as [|x r IH]; [done|]. cbn [hasSpace].
  intros [Hx Hr]%orb_false_elim.
  rewrite splitSpaces_other, IH by done. done.
Qed.

(** A token, one white space, and a rest that starts with something
    else. *)
Lemma splitSpaces_token_space t sp y rest :
  hasSpace t = false → isSpace sp = true → isSpace y = false →
  splitSpaces (t +:+ String sp (String y rest))
  = t :: splitSpaces (String y rest).
Proof.
  intros Ht Hsp Hy. induction t as [|x t' IH].
  - change ("" +:+ String sp (String y rest))
      with (String sp (String y rest)).
    by rewrite splitSpaces_space, Hy by done.
  - cbn [hasSpace] in Ht. apply orb_false_elim in Ht as [Hx Ht'].
    change (String x t' +:+ String sp (String y rest))
      with (String x (t' +:+ String sp (String y rest))).
    by rewrite splitSpaces_other, IH by done.
Qed.

Lemma join_space_head t ts :
  cleanToken t →
  ∃ y rest, join " " (t :: ts) = String y rest ∧ isSpace y = false.
Proof.
  intros [Hne Hns]. destruct t as [|y t']; [done|].
  cbn [hasSpace] in Hns. apply orb_false_elim in Hns as [Hy _].
  destruct ts; by eexists _, _.
Qed.

(** Splitting the tokens joined by single spaces gives the tokens back. *)
Lemma splitSpaces_join ts :
  ts ≠ [] → Forall cleanToken ts → splitSpaces (join " " ts) = ts.
Proof.
  induction ts as [|t ts IH]; [done|]. intros _ Hall.
  apply Forall_cons in Hall as [[Hne Hns] Hts].
  destruct ts as [|t' ts']; [by apply splitSpaces_no_space|].
  destruct (join_space_head t' ts') as (y & rest & Hjoin & Hy);
    [by apply Forall_cons in Hts as [? _]|].
  change (join " " (t :: t' :: ts'))
    with (t +:+ String " " (join " " (t' :: ts'))).
  rewrite Hjoin, splitSpaces_token_space by done.
  by rewrite <- Hjoin, IH.
Qed.

Lemma trimEnd_unfold c r :
  trimEnd (String c r) =
    match trimEnd r with
    | EmptyString => if isSpace c then EmptyString else String c EmptyString
    | String c' r' => String c (String c' r')
    end.
Proof. reflexivity. Qed.

Lemma trimEnd_id s : endsWithSpace s = false → trimEnd s = s.
Proof.
  induction s as [|c r IH]; [done|]. intros Hend.
  rewrite trimEnd_unfold. destruct r as [|c' r'].
  - cbn in *. by rewrite Hend.
  - by rewrite IH by exact Hend.
Qed.

Lemma endsWithSpace_append p q :
  q ≠ "" → endsWithSpace (p +:+ q) = endsWithSpace q.
Proof.
  intros Hq. induction p as [|x p IH]; [done|].
  change (String x p +:+ q) with (String x (p +:+ q)).
  destruct (p +:+ q) as [|c r] eqn:E; [by destruct p, q|].
  by rewrite <- IH.
Qed.

Lemma endsWithSpace_token t : hasSpace t = false → endsWithSpace t = false.
Proof.
  induction t as [|x r IH]; [done|]. cbn [hasSpace].
  intros [Hx Hr]%orb_false_elim. destruct r; [done|]. by apply IH.
Qed.

Lemma endsWithSpace_join ts :
  Forall cleanToken ts → endsWithSpace (join " " ts) = false.
Proof.
  induction 1 as [|t ts [Hne Hns] Hts IH]; [done|].
  destruct ts as [|t' ts']; [by apply endsWithSpace_token|].
  change (join " " (t :: t' :: ts'))
    with (t +:+ String " " (join " " (t' :: ts'))).
  destruct (join_space_head t' ts') as (y & rest & Hjoin & Hy);
    [by apply Forall_cons in Hts as [? _]|].
  rewrite endsWithSpace_append by done.
  rewrite Hjoin in *. exact IH.
Qed.

(** Clean tokens joined by single spaces are their own tokens. *)
Lemma tokens_join ts :
  ts ≠ [] → Forall cleanToken ts → tokens (join " " ts) = ts.
Proof.
  intros Hne Hall. unfold tokens, trim.
  destruct ts as [|t ts']; [done|].
  destruct (join_space_head t ts') as (y & rest & Hjoin & Hy);
    [by apply Forall_cons in Hall as [? _]|].
  assert (trimStart (join " " (t :: ts')) = join " " (t :: ts')) as ->
    by (rewrite Hjoin; cbn [trimStart]; by rewrite Hy).
  rewrite trimEnd_id by (by apply endsWithSpace_join).
  by apply splitSpaces_join.
Qed.

End EchoFacts.

(** X8. [echo] prints its arguments separated by single spaces, whatever
    white space separated them: the tokens of the output are the arguments,
    so echoing the output prints it again unchanged. *)
Theorem echo_idempotent (line : string) (this : MockSystem) :
  tokens line !! 0 = Some "echo" →
  let out := fst (executeCommand line this) in
  out = join " " (drop 1 (tokens line))
  ∧ (drop 1 (tokens line) ≠ [] → tokens out = drop 1 (tokens line))
  ∧ executeCommand ("echo " +:+ out) this = (out, this).
Proof.
  intros Hcmd out. subst out. rewrite executeCommand_echo by done.
  cbn [fst]. split; [done|].
  destruct (tokens_clean line) as [E|Hclean];
    [by rewrite E in Hcmd|].
  destruct (tokens line) as [|cmd args] eqn:Htok; [done|].
  injection Hcmd as ->. apply Forall_cons in Hclean as [Hecho Hargs].
  change (drop 1 ("echo" :: args)) with args. split; [intros Hne; by apply tokens_join|].
  destruct args as [|arg args'].
  - by vm_compute.
  - rewrite executeCommand_echo.
    + change ("echo " +:+ join " " (arg :: args'))
        with (join " " ("echo" :: arg :: args')).
      by rewrite tokens_join by (done || by constructor).
    + change ("echo " +:+ join " " (arg :: args'))
        with (join " " ("echo" :: arg :: args')).
      by rewrite tokens_join by (done || by constructor).
Qed.

Lemma echo_idempotent_witness :
  fst (executeCommand "  echo   a  b " new_MockSystem) = "a b"
  ∧ executeCommand "echo a b" new_MockSystem = ("a b", new_MockSystem).
Proof.
  destruct (echo_idempotent "  echo   a  b " new_MockSystem eq_refl)
    as (Hout & _ & Hagain).
  split; [exact Hout|exact Hagain].
Defined.

(** ** Uploads: lookup after insertion, repetition, sibling names *)

Section UploadFacts.

Implicit Types (n c f m : FileSystemNode) (cs : list FileSystemNode).
Implicit Types (path parts : list string).

(** After its write, the children array holds [fileNode] as the first
    child of that name. *)
Lemma putChild_find cs f :
  ∃ i, list_find (λ c, name c = name f) (putChild cs f) = Some (i, f).
Proof.
  unfold putChild.
  destruct (list_find _ cs) as [[i c]|] eqn:Hfind.
  - exists i. by apply (list_find_overwrite cs (name f) i c f).
  - exists (length cs). rewrite list_find_app_r by done.
    rewrite list_find_name_cons, decide_True by done. cbn. do 2 f_equal.
Qed.

Lemma putChild_idem cs f : putChild (putChild cs f) f = putChild cs f.
Proof.
  destruct (putChild_find cs f) as [i Hfind].
  unfold putChild at 1. rewrite Hfind.
  apply list_insert_id. by apply list_find_Some in Hfind as (? & _).
Qed.

Lemma set_children_twice n cs cs' :
  set_children (set_children n cs) cs' = set_children n cs'.
Proof. reflexivity. Qed.

(** A second write along the same path replaces the first. *)
Lemma writeAt_writeAt n path m m' m'' :
  findNode_from n path = Some m → name m' = name m →
  writeAt (writeAt n path m') path m'' = writeAt n path m''.
Proof.
  revert n. induction path as [|seg rest IH]; intros n Hm Hname; [done|].
  cbn [findNode_from writeAt] in *.
  destruct (children n) as [cs|] eqn:Hcs; [|done].
  destruct (list_find _ cs) as [[i next]|] eqn:Hfind; [|done].
  cbn [children set_children].
  erewrite list_find_overwrite; [|done|].
  - rewrite list_insert_insert_eq, (IH next) by done. done.
  - rewrite (writeAt_name next rest m m') by done.
    by apply list_find_name_Some in Hfind as (_ & ? & _).
Qed.

(** The node on the way to a write is the old one with the write below
    it. *)
Lemma findNode_from_writeAt_prefix n pre post a m m' :
  findNode_from n pre = Some a →
  findNode_from a post = Some m →
  name m' = name m →
  findNode_from (writeAt n (pre ++ post) m') pre = Some (writeAt a post m').
Proof.
  revert n. induction pre as [|seg pre IH]; intros n Ha Hm Hname.
  - injection Ha as ->. done.
  - cbn [app findNode_from writeAt] in *.
    destruct (children n) as [cs|] eqn:Hcs; [|done].
    destruct (list_find _ cs) as [[i next]|] eqn:Hfind; [|done].
    cbn [children set_children].
    erewrite list_find_overwrite; [by apply IH|done|].
    rewrite (writeAt_name next (pre ++ post) m m');
      [by apply list_find_name_Some in Hfind as (_ & ? & _)| |done].
    by rewrite findNode_from_app, Ha.
Qed.

(** A write below a node changes none of the names of its children. *)
Lemma writeAt_children_names a post m m' :
  post ≠ [] →
  findNode_from a post = Some m → name m' = name m →
  name <$> default [] (children (writeAt a post m'))
  = name <$> default [] (children a).
Proof.
  destruct post as [|seg rest]; [done|]. intros _ Hm Hname.
  cbn [findNode_from writeAt] in *.
  destruct (children a) as [cs|] eqn:Hcs; [|done].
  destruct (list_find _ cs) as [[i next]|] eqn:Hfind; [|done].
  cbn [children set_children default from_option id].
  apply list_find_name_Some in Hfind as (Hi & Hnext & _).
  rewrite list_fmap_insert, (writeAt_name next rest m m') by done.
  apply list_insert_id. by rewrite list_lookup_fmap, Hi.
Qed.

(** Two segment lists: one is the beginning of the other, or they part at
    some segment. *)
Lemma paths_compare (q parts : list string) :
  (∃ post, parts = q ++ post)
  ∨ (∃ s r, q = parts ++ s :: r)
  ∨ (∃ common s s' q' p',
       q = common ++ s :: q' ∧ parts = common ++ s' :: p' ∧ s ≠ s').
Proof.
  revert parts. induction q as [|s q IH]; intros parts; [left; by eexists|].
  destruct parts as [|s' parts]; [right; left; by exists s, q|].
  destruct (decide (s = s')) as [<-|Hne].
  - destruct (IH parts) as [[post ->]|[(t & r & ->)|Hdiv]].
    + left. by exists post.
    + right; left. by exists t, r.
    + destruct Hdiv as (common & t & t' & q' & p' & -> & -> & Hne).
      right; right. by exists (s :: common), t, t', q', p'.
  - right; right. by exists [], s, s', q, parts.
Qed.

Lemma startsWith_no_occurs (sep : ascii) (s : string) :
  occurs sep s = false → startsWith sep s = false.
Proof.
  destruct s as [|x r]; [done|]. cbn [occurs startsWith].
  by intros [-> _]%orb_false_elim.
Qed.

Lemma findNode_from_prefix_Some n pre post m :
  findNode_from n (pre ++ post) = Some m →
  ∃ a, findNode_from n pre = Some a ∧ findNode_from a post = Some m.
Proof.
  rewrite findNode_from_app. destruct (findNode_from n pre) as [a|]; [|done].
  eauto.
Qed.

End UploadFacts.



(** X9. Insert then look up: after a successful [addFile], the new node is
    found under its name in the target directory, and every path below that
    name is a path into the new node.  As a string: for a well-formed name,
    [<dirPath>/<name>] resolves to the new node. *)
Theorem addFile_then_lookup
    (dirPath : string) (f : FileSystemNode) (this : MockSystem)
    (dir : FileSystemNode) :
  resolvedNode dirPath this = Some dir →
  type dir = directory →
  let this' := snd (addFile dirPath f this) in
  (∀ rest, findNode_from (root this')
             (resolvedParts dirPath this ++ name f :: rest)
           = findNode_from f rest)
  ∧ (dirPath ≠ "" → wfSegment (name f) →
     resolvedNode (dirPath +:+ "/" +:+ name f) this' = Some f).
Proof.
  intros Hdir Htype this'.
  assert (findNode_from (root this) (resolvedParts dirPath this) = Some dir)
    as Hfound by (by rewrite <- Hdir).
  assert (this' = mkSys (writeAt (root this) (resolvedParts dirPath this)
                           (set_children dir
                              (putChild (default [] (children dir)) f)))
                        (currentPath this)) as Hthis'.
  { subst this'. rewrite addFile_run, Hdir, Htype.
    by rewrite bool_decide_eq_true_2 by done. }
  assert (∀ rest, findNode_from (root this')
                    (resolvedParts dirPath this ++ name f :: rest)
                  = findNode_from f rest) as Hbelow.
  { intros rest. rewrite Hthis'. cbn [root].
    rewrite findNode_from_app, (findNode_from_writeAt _ _ dir) by done.
    cbn [findNode_from children set_children].
    destruct (putChild_find (default [] (children dir)) f) as [i ->]. done. }
  split; [done|]. intros Hne Hwf.
  rewrite resolvedNode_parts, resolvedParts_compose;
    [|done|apply startsWith_no_occurs, Hwf].
  assert (resolvedParts dirPath this' = resolvedParts dirPath this) as ->
    by (by rewrite Hthis').
  assert (resolvedParts (name f)
            (mkSys (root this') (resolvedParts dirPath this))
          = resolvedParts dirPath this ++ [name f]) as ->.
  { unfold resolvedParts at 1.
    unfold resolvePath, bind, getCurrentPath, findNode, getRoot, ret.
    cbn [fst snd currentPath].
    destruct Hwf as (Hnonempty & Hdot & Hdd & Hslash).
    rewrite split_no_sep by done. cbn [List.filter].
    rewrite wfSegment_kept by done. cbn [fold_left].
    unfold resolveStep. rewrite bool_decide_eq_false_2 by done.
    by rewrite startsWith_no_occurs. }
  apply Hbelow.
Qed.

Lemma addFile_then_lookup_witness :
  let f := fileNode "hosts" "-rw-r--r--" "user" "2" "Oct 28 08:00" "a" in
  resolvedNode "/etc/hosts" (snd (addFile "/etc" f new_MockSystem)) = Some f.
Proof.
  intros f.
  set (etc := default f (findNode_from initialFileSystem ["etc"])).
  destruct (addFile_then_lookup "/etc" f new_MockSystem etc eq_refl eq_refl)
    as [_ Hstring].
  apply Hstring; [discriminate|].
  repeat split; discriminate.
Defined.

(** X10. Uploading the same node to the same path twice is uploading it
    once: the second call returns what the first returned and leaves the
    state of the first. *)
Theorem addFile_twice
    (dirPath : string) (f : FileSystemNode) (this : MockSystem) :
  addFile dirPath f (snd (addFile dirPath f this))
  = (fst (addFile dirPath f this), snd (addFile dirPath f this)).
Proof.
  rewrite (addFile_run dirPath f this).
  destruct (resolvedNode dirPath this) as [dir|] eqn:Hdir.
  - destruct (type dir) eqn:Htype.
    + rewrite bool_decide_eq_false_2 by done. cbn [fst snd].
      by rewrite addFile_run, Hdir, Htype, bool_decide_eq_false_2.
    + rewrite bool_decide_eq_true_2 by done. cbn [fst snd].
      set (parts := resolvedParts dirPath this).
      set (dir1 := set_children dir (putChild (default [] (children dir)) f)).
      assert (findNode_from (root this) parts = Some dir) as Hfound
        by (by rewrite <- Hdir).
      rewrite addFile_run, resolvedNode_parts. cbn [root currentPath].
      assert (resolvedParts dirPath (mkSys (writeAt (root this) parts dir1)
                                       (currentPath this)) = parts) as ->
        by done.
      rewrite (findNode_from_writeAt _ _ dir) by done.
      rewrite bool_decide_eq_true_2 by done.
      cbn [children set_children default from_option id] .
      subst dir1. cbn [children set_children default from_option id].
      rewrite putChild_idem, set_children_twice.
      by rewrite (writeAt_writeAt _ _ dir).
  - cbn [fst snd]. by rewrite addFile_run, Hdir.
Qed.

Lemma checkSiblingNames_sound depth tree :
  checkSiblingNames depth tree = true → siblingNamesUnique tree.
Proof.
  revert tree. induction depth as [|depth IH]; intros tree; [done|].
  cbn [checkSiblingNames]. intros [Hhere Hbelow]%andb_prop.
  apply bool_decide_eq_true in Hhere.
  intros path node. destruct path as [|seg rest]; [by intros [= <-]|].
  cbn [findNode_from].
  destruct (children tree) as [cs|]; [|done].
  destruct (list_find _ cs) as [[i next]|] eqn:Hfind; [|done].
  apply list_find_Some in Hfind as (Hi & _ & _).
  apply list_elem_of_lookup_2, list_elem_of_In in Hi.
  rewrite forallb_forall in Hbelow. apply (IH next). by apply Hbelow.
Qed.

(** X11. [addFile] keeps sibling names unique: if no directory of the tree
    has two children of the same name, and the same holds inside the node
    that is added, then it holds for the tree after the call. *)
Theorem addFile_keeps_sibling_names_unique
    (dirPath : string) (f : FileSystemNode) (this : MockSystem) :
  siblingNamesUnique (root this) →
  siblingNamesUnique f →
  siblingNamesUnique (root (snd (addFile dirPath f this))).
Proof.
  intros Htree Hf. rewrite addFile_run.
  destruct (resolvedNode dirPath this) as [dir|] eqn:Hdir; [|done].
  destruct (type dir) eqn:Htype; [done|].
  rewrite bool_decide_eq_true_2 by done. cbn [snd root].
  set (parts := resolvedParts dirPath this).
  set (cs := default [] (children dir)).
  set (dir' := set_children dir (putChild cs f)).
  assert (findNode_from (root this) parts = Some dir) as Hfound
    by (by rewrite <- Hdir).
  intros q node Hq.
  destruct (paths_compare q parts)
    as [[post Hparts]|[(s & r & ->)|(common & s & s' & q' & p' & -> & Hparts & Hne)]].
  - (* [q] is on the way to the directory, or is its path *)
    rewrite Hparts in Hfound, Hq.
    apply findNode_from_prefix_Some in Hfound as (a & Ha & Hpost).
    rewrite (findNode_from_writeAt_prefix _ _ _ a dir) in Hq by done.
    injection Hq as <-.
    destruct post as [|seg rest].
    + injection Hpost as ->. subst dir'. cbn [writeAt children set_children].
      cbn [default from_option id]. apply putChild_unique.
      by apply (Htree q).
    + rewrite (writeAt_children_names a (seg :: rest) dir dir') by done.
      by apply (Htree q).
  - (* [q] goes through the directory *)
    rewrite findNode_from_app, (findNode_from_writeAt _ _ dir) in Hq by done.
    subst dir'.
    destruct (decide (s = name f)) as [->|Hs].
    + cbn [findNode_from children set_children] in Hq.
      destruct (putChild_find cs f) as [i Hfind]. rewrite Hfind in Hq.
      by apply (Hf r).
    + apply (Htree (parts ++ s :: r)).
      rewrite findNode_from_app, Hfound. rewrite <- Hq.
      cbn [findNode_from children set_children].
      rewrite putChild_find_other by done.
      subst cs. by destruct (children dir).
  - (* [q] leaves the path of the directory *)
    rewrite Hparts in Hq, Hfound.
    rewrite (writeAt_diverge common _ s s' q' p' dir) in Hq by done.
    by apply (Htree (common ++ s :: q')).
Qed.

Lemma addFile_keeps_sibling_names_unique_witness :
  let f := fileNode "passwd" "-rw-r--r--" "user" "2" "Oct 28 08:00" "b" in
  siblingNamesUnique (root (snd (addFile "/etc" f new_MockSystem))).
Proof.
  intros f. apply addFile_keeps_sibling_names_unique.
  - apply (checkSiblingNames_sound 5). reflexivity.
  - apply (checkSiblingNames_sound 1). reflexivity.
Defined.

(** ** The file manager and the terminal look at the same tree *)

Section ListingFacts.

Implicit Types (segs : list string) (n dir : FileSystemNode).

Lemma listFiles_run pathStr this :
  listFiles pathStr this =
    (listingOf (findNode_from (root this)
                  (filter (λ s, s ≠ "") (split "/" pathStr))), this).
Proof.
  unfold listFiles, bind. rewrite findNode_run, listFiles_parts.
  unfold ret, listingOf.
  destruct (findNode_from _ _) as [n|]; [|done]. by destruct (type n).
Qed.

Lemma filter_nonempty_wf segs :
  Forall wfSegment segs → filter (λ s, s ≠ "") segs = segs.
Proof.
  induction 1 as [|seg segs (Hne & _) _ IH]; [done|].
  by rewrite filter_cons, decide_True, IH.
Qed.

(** The pieces of the absolute string of well-formed segments. *)
Lemma listFiles_segments_absolute segs :
  Forall wfSegment segs →
  filter (λ s, s ≠ "") (split "/" ("/" +:+ join "/" segs)) = segs.
Proof.
  intros Hall.
  change ("/" +:+ join "/" segs) with (String "/" (join "/" segs)).
  cbn [split]. rewrite bool_decide_eq_true_2 by done.
  rewrite filter_cons, decide_False by (intros Hne; by apply Hne).
  destruct segs as [|seg segs']; [done|].
  rewrite split_join; [by apply filter_nonempty_wf|done|].
  eapply Forall_impl; [exact Hall|]. by intros ? (_ & _ & _ & ?).
Qed.

Lemma listFiles_absolute segs this :
  Forall wfSegment segs →
  listFiles ("/" +:+ join "/" segs) this
  = (listingOf (findNode_from (root this) segs), this).
Proof. intros. by rewrite listFiles_run, listFiles_segments_absolute. Qed.

End ListingFacts.

(** X12. The file manager and [ls] agree: on a well-formed cursor that
    names a directory, [ls] without argument prints the names, joined with
    two spaces, of what [listFiles] returns for the string of
    [getCurrentPathString]. *)
Theorem ls_agrees_with_listFiles (line : string) (this : MockSystem) :
  tokens line = ["ls"] →
  Forall wfSegment (currentPath this) →
  cursorOnDirectory this →
  fst (executeCommand line this)
  = join "  "
      (map name (fst (listFiles (fst (getCurrentPathString this)) this))).
Proof.
  intros Htokens Hwf (dir & Hdir & Htype).
  rewrite executeCommand_ls by (by rewrite Htokens). cbv zeta.
  rewrite Htokens. cbn [lookup list_lookup truthy].
  change (fst (getCurrentPathString this))
    with ("/" +:+ join "/" (currentPath this)).
  rewrite listFiles_absolute, Hdir by done. unfold listingOf.
  rewrite Htype, bool_decide_eq_false_2 by done.
  by destruct (children dir).
Qed.

Lemma ls_agrees_with_listFiles_witness :
  fst (executeCommand "ls" new_MockSystem) = "documents  config.json"
  ∧ (name <$> fst (listFiles "/home/user" new_MockSystem))
    = ["documents"; "config.json"].
Proof.
  assert (Forall wfSegment (currentPath new_MockSystem)) as Hwf
    by (repeat constructor; discriminate).
  assert (cursorOnDirectory new_MockSystem) as Hdir
    by (eexists; split; [vm_compute; reflexivity|reflexivity]).
  pose proof (ls_agrees_with_listFiles "ls" new_MockSystem eq_refl Hwf Hdir)
    as Hagree.
  split; [exact Hagree|reflexivity].
Defined.

(** ** The application shell *)

Section AppFacts.

Lemma App_refreshFiles_run path (st : App.State) :
  App.refreshFiles path st
  = App.mkState (App.mockSystem st) (App.terminalLines st) (App.shownCwd st)
      (fst (listFiles path (App.mockSystem st))) (App.fsPath st).
Proof. unfold App.refreshFiles. by rewrite listFiles_run. Qed.

End AppFacts.

(** X13. A command line that starts with [cd] brings the file manager to
    the directory of the terminal: afterwards the path of the file manager
    is the string of [getCurrentPathString] and its file list is the
    children of the directory the cursor names (given a well-formed cursor
    on a directory and a directory at [/home/user]).  A line that does not
    start with [cd] leaves the path and the file list of the file manager
    as they were; the interpreter runs on the same line either way. *)
Theorem App_cd_syncs_file_manager
    (id1 id2 cmd : string) (st : App.State) :
  let sys := App.mockSystem st in
  let st' := App.executeCommand id1 id2 cmd st in
  let sys' := App.mockSystem st' in
  Forall wfSegment (currentPath sys) →
  cursorOnDirectory (mkSys (root sys) ["home"; "user"]) →
  cursorOnDirectory sys →
  sys' = snd (executeCommand cmd sys)
  ∧ (App.startsWithCd cmd = true →
       App.fsPath st' = fst (getCurrentPathString sys')
       ∧ ∃ dir, findNode_from (root sys') (currentPath sys') = Some dir
                ∧ type dir = directory
                ∧ App.fileList st' = default [] (children dir))
  ∧ (App.startsWithCd cmd = false →
       App.fsPath st' = App.fsPath st ∧ App.fileList st' = App.fileList st).
Proof.
  intros sys st' sys' Hwf Hhome Hdir.
  pose proof (cursor_wf_step cmd sys Hwf) as Hwf'.
  pose proof (cursor_directory_step cmd sys Hhome Hdir) as (dir & Hdir' & Ht).
  subst sys' st'. unfold App.executeCommand. fold sys.
  destruct (executeCommand cmd sys) as [out sys1] eqn:Hrun.
  cbn [snd] in *.
  change (getCurrentPathString sys1)
    with ("/" +:+ join "/" (currentPath sys1), sys1).
  cbv iota beta.
  destruct (App.startsWithCd cmd).
  - rewrite App_refreshFiles_run. unfold App.setFsPath.
    cbn [App.mockSystem App.fsPath App.fileList App.terminalLines
         App.shownCwd].
    split; [done|]. split; [|done]. intros _. split; [done|].
    exists dir. split_and!; [done..|].
    rewrite listFiles_absolute, Hdir' by done. unfold listingOf.
    by rewrite Ht.
  - cbn [App.mockSystem App.fsPath App.fileList]. done.
Qed.

Lemma App_cd_syncs_file_manager_witness :
  let st := App.mkState new_MockSystem [] "~" [] "/home/user" in
  let st' := App.executeCommand "1" "2" "cd /etc" st in
  App.fsPath st' = "/etc"
  ∧ (name <$> App.fileList st') = ["passwd"].
Proof.
  intros st st'.
  assert (Forall wfSegment (currentPath new_MockSystem)) as Hwf
    by (repeat constructor; discriminate).
  assert (cursorOnDirectory new_MockSystem) as Hdir
    by (eexists; split; [vm_compute; reflexivity|reflexivity]).
  destruct (App_cd_syncs_file_manager "1" "2" "cd /etc" st Hwf Hdir Hdir)
    as (_ & Hsync & _).
  destruct (Hsync eq_refl) as (Hpath & dir & Hfound & _ & Hlist).
  split; [exact Hpath|].
  fold st' in Hlist. rewrite Hlist.
  vm_compute in Hfound. injection Hfound as <-. reflexivity.
Defined.

(** A line with a blank before [cd] moves the cursor of the terminal and
    leaves the file manager where it was. *)
Example App_cd_after_blank :
  let st := App.mkState new_MockSystem [] "~" [] "/home/user" in
  let st' := App.executeCommand "1" "2" " cd /etc" st in
  currentPath (App.mockSystem st') = ["etc"]
  ∧ App.shownCwd st' = "/etc"
  ∧ App.fsPath st' = "/home/user".
Proof. by vm_compute. Qed.

(** X14. An upload into the directory the file manager shows: when the
    path of the file manager is the absolute string of well-formed segments
    that name a directory, [handleUploadFile] adds a file node with the
    name of the uploaded file, the refreshed file list is the children of
    that directory with the node written in (over the first child of that
    name, or at the end), the node is in the list, and the terminal gets
    one more line; the path itself stays. *)
Theorem App_upload_shows_in_listing
    (fileName sizeText dateText : string) (username : option string)
    (now : string) (st : App.State)
    (segs : list string) (dir : FileSystemNode) :
  App.fsPath st = "/" +:+ join "/" segs →
  Forall wfSegment segs →
  findNode_from (root (App.mockSystem st)) segs = Some dir →
  type dir = directory →
  let st' :=
    App.handleUploadFile fileName sizeText dateText username now st in
  ∃ newNode,
    name newNode = fileName ∧ type newNode = file ∧ children newNode = None
    ∧ App.fileList st' = putChild (default [] (children dir)) newNode
    ∧ newNode ∈ App.fileList st'
    ∧ fst (listFiles (App.fsPath st) (App.mockSystem st')) = App.fileList st'
    ∧ length (App.terminalLines st') = S (length (App.terminalLines st))
    ∧ App.fsPath st' = App.fsPath st.
Proof.
  intros Hpath Hwf Hdir Htype st'. subst st'. unfold App.handleUploadFile.
  set (newNode := mkNode fileName file _ None _ _ sizeText dateText).
  exists newNode. split_and!; [done..| | | | |].
  all: rewrite addFile_run, resolvedNode_parts, Hpath,
         resolvedParts_absolute, Hdir, Htype, bool_decide_eq_true_2 by done;
       cbv iota beta; rewrite App_refreshFiles_run;
       cbn [App.mockSystem App.fsPath App.fileList App.terminalLines
            App.shownCwd];
       rewrite ?Hpath, ?listFiles_absolute by done; cbn [root fst];
       rewrite ?(findNode_from_writeAt _ _ dir) by done;
       unfold listingOf; cbn [type children set_children];
       rewrite ?Htype; cbn [default from_option id].
  - done.
  - destruct (putChild_find (default [] (children dir)) newNode) as [i Hfind].
    apply list_find_Some in Hfind as (Hi & _).
    by eapply list_elem_of_lookup_2.
  - done.
  - rewrite length_app. simpl. lia.
  - done.
Qed.

Lemma App_upload_shows_in_listing_witness :
  let st := App.mkState new_MockSystem [] "~" [] "/home/user" in
  let st' := App.handleUploadFile "a.txt" "12 B" "Oct 28 08:00" None "9" st in
  (name <$> App.fileList st') = ["documents"; "config.json"; "a.txt"].
Proof.
  intros st st'.
  set (user := default initialFileSystem
                 (findNode_from initialFileSystem ["home"; "user"])).
  destruct (App_upload_shows_in_listing "a.txt" "12 B" "Oct 28 08:00" None
              "9" st ["home"; "user"] user eq_refl)
    as (newNode & _ & _ & _ & Hlist & _);
    [repeat constructor; discriminate|reflexivity|reflexivity|].
  reflexivity.
Defined.

(** ** The file manager *)

Section FileManagerFacts.

Lemma sliceInit_snoc {A} (xs : list A) x :
  FileManager.sliceInit (xs ++ [x]) = xs.
Proof.
  unfold FileManager.sliceInit. rewrite length_app. simpl.
  replace (length xs + 1 - 1) with (length xs) by lia.
  by rewrite take_app_length.
Qed.

Lemma sliceInit_removelast {A} (xs : list A) :
  FileManager.sliceInit xs = removelast xs.
Proof.
  unfold FileManager.sliceInit. rewrite removelast_firstn_len.
  f_equal. lia.
Qed.

Lemma append_nonempty (p q : string) : p ≠ "" → nonempty (p +:+ q) = true.
Proof. by destruct p. Qed.

Lemma nonempty_true (s : string) : s ≠ "" → nonempty s = true.
Proof. by destruct s. Qed.

(** The path that a double click computes. *)
Lemma handleDoubleClick_path p file :
  type file = directory →
  FileManager.handleDoubleClick p file
  = Some (if bool_decide (p = "/") then "/" +:+ name file
          else p +:+ "/" +:+ name file).
Proof.
  intros Htype. unfold FileManager.handleDoubleClick.
  by rewrite bool_decide_eq_true_2.
Qed.

(** The segments that [listFiles] walks for the path of a double click. *)
Lemma child_path_segments p nm :
  nm ≠ "" → occurs "/" nm = false →
  filter (λ s, s ≠ "") (split "/" (if bool_decide (p = "/") then "/" +:+ nm
                                   else p +:+ "/" +:+ nm))
  = filter (λ s, s ≠ "") (split "/" p) ++ [nm].
Proof.
  intros Hne Hslash. case_bool_decide as Hroot.
  - subst p. change ("/" +:+ nm) with (String "/" nm).
    cbn [split]. rewrite bool_decide_eq_true_2 by done.
    rewrite split_no_sep by done.
    rewrite filter_cons, decide_False by (intros H; by apply H).
    by rewrite filter_cons, decide_True.
  - rewrite append_cons, split_app, (split_no_sep "/" nm), filter_app by done.
    by rewrite (filter_cons _ nm), decide_True.
Qed.

End FileManagerFacts.

(** X15. Entering a directory and going up again comes back: for a
    directory with a non-empty name without ['/'] and a non-empty current
    path, [goUp] on the path that [handleDoubleClick] navigates to
    navigates to the current path. *)
Theorem doubleClick_then_goUp (p : string) (file : FileSystemNode) :
  type file = directory →
  p ≠ "" →
  name file ≠ "" →
  occurs "/" (name file) = false →
  ∃ newPath, FileManager.handleDoubleClick p file = Some newPath
             ∧ FileManager.goUp newPath = Some p.
Proof.
  intros Htype Hp Hne Hslash. rewrite handleDoubleClick_path by done.
  eexists. split; [done|].
  destruct (decide (p = "/")) as [->|Hroot].
  - rewrite bool_decide_eq_true_2 by done. unfold FileManager.goUp.
    change ("/" +:+ name file) with (String "/" (name file)).
    rewrite bool_decide_eq_false_2
      by (intros [= E]; by rewrite E in Hne).
    cbn [split]. rewrite bool_decide_eq_true_2 by done.
    rewrite split_no_sep by done.
    assert (FileManager.sliceInit [""; name file] = [""]) as ->
      by apply (sliceInit_snoc [""]).
    done.
  - rewrite (bool_decide_eq_false_2 (p = "/")) by done.
    unfold FileManager.goUp.
    rewrite bool_decide_eq_false_2.
    + rewrite append_cons, split_app, (split_no_sep "/" (name file)) by done.
      rewrite sliceInit_snoc, join_split. by rewrite nonempty_true.
    + destruct p as [|c [|c' p']]; [done| |done].
      change (String c "" +:+ "/" +:+ name file)
        with (String c (String "/" (name file))). done.
Qed.

Lemma doubleClick_then_goUp_witness :
  FileManager.handleDoubleClick "/home"
    (dirNode "user" "drwxr-xr-x" "user" "4096" "Oct 25 10:01" [])
  = Some "/home/user"
  ∧ FileManager.goUp "/home/user" = Some "/home".
Proof.
  destruct (doubleClick_then_goUp "/home"
              (dirNode "user" "drwxr-xr-x" "user" "4096" "Oct 25 10:01" []))
    as (newPath & Hclick & Hup);
    [reflexivity|discriminate|discriminate|reflexivity|].
  assert (newPath = "/home/user") as -> by (by injection Hclick as <-).
  split; [exact Hclick|exact Hup].
Defined.

(** X16. A double click on a directory of the list shows its children: if
    [file] is in what [listFiles] returns for the current path, is the
    first there with its name, and has a non-empty name without ['/'], then
    [listFiles] on the path that [handleDoubleClick] navigates to returns
    the children of [file]. *)
Theorem doubleClick_lists_children
    (p : string) (file : FileSystemNode) (this : MockSystem)
    (i : nat) (newPath : string) :
  fst (listFiles p this) !! i = Some file →
  (∀ j c, j < i → fst (listFiles p this) !! j = Some c →
          name c ≠ name file) →
  name file ≠ "" →
  occurs "/" (name file) = false →
  FileManager.handleDoubleClick p file = Some newPath →
  fst (listFiles newPath this) = default [] (children file).
Proof.
  intros Hi Hfirst Hne Hslash Hclick.
  assert (type file = directory) as Htype.
  { unfold FileManager.handleDoubleClick in Hclick.
    by case_bool_decide. }
  rewrite handleDoubleClick_path in Hclick by done.
  injection Hclick as <-.
  rewrite listFiles_run in Hi, Hfirst. cbn [fst] in Hi, Hfirst.
  rewrite listFiles_run, child_path_segments, findNode_from_app by done.
  cbn [fst].
  destruct (findNode_from (root this) _) as [dir|]; [|done].
  unfold listingOf in Hi, Hfirst.
  destruct (type dir); [done|].
  cbn [findNode_from].
  destruct (children dir) as [cs|]; [|done].
  cbn [default from_option id] in Hi, Hfirst.
  rewrite (proj2 (list_find_name_Some cs (name file) i file)) by eauto.
  unfold listingOf. by rewrite Htype.
Qed.

Lemma doubleClick_lists_children_witness :
  (name <$> fst (listFiles "/home/user/documents" new_MockSystem))
  = ["project_notes.txt"; "todo.md"].
Proof.
  set (documents :=
    default initialFileSystem
      (findNode_from initialFileSystem ["home"; "user"; "documents"])).
  rewrite (doubleClick_lists_children "/home/user" documents new_MockSystem
             0 "/home/user/documents");
    [reflexivity|reflexivity|intros j c Hj; lia|discriminate
    |reflexivity|reflexivity].
Defined.

Section GoUpFacts.

Lemma filter_nonempty_snoc (init : list string) lst :
  lst ≠ "" →
  removelast (filter (λ s, s ≠ "") (init ++ [lst]))
  = filter (λ s, s ≠ "") init.
Proof.
  intros Hlst. rewrite filter_app, (filter_cons _ lst), decide_True by done.
  by rewrite filter_nil, removelast_last.
Qed.

Lemma join_empty_pieces c (init : list string) :
  init ≠ [] → Forall (λ s, occurs c s = false) init →
  join (String c "") init = "" → init = [""].
Proof.
  intros Hne Hall Hjoin. rewrite <- (split_join c init) by done.
  by rewrite Hjoin.
Qed.

End GoUpFacts.

(** X17. [goUp] lists the parent: for a path other than ["/"] that does
    not end with ['/'], [goUp] navigates to a path whose segments, as
    [listFiles] reads them, are those of the current path without the last
    one. *)
Theorem goUp_lists_parent (p : string) :
  p ≠ "/" →
  last (split "/" p) ≠ Some "" →
  ∃ parentPath,
    FileManager.goUp p = Some parentPath
    ∧ filter (λ s, s ≠ "") (split "/" parentPath)
      = removelast (filter (λ s, s ≠ "") (split "/" p))
    ∧ ∀ this, fst (listFiles parentPath this)
              = listingOf (findNode_from (root this)
                             (removelast (filter (λ s, s ≠ "")
                                                 (split "/" p)))).
Proof.
  intros Hroot Hlast. unfold FileManager.goUp.
  rewrite bool_decide_eq_false_2 by done. cbv zeta.
  eexists. split; [done|].
  pose proof (split_pieces_no_sep "/" p) as Hnosep.
  destruct (split "/" p) as [|piece pieces] eqn:Hsplit using rev_ind;
    [by apply split_nonnil in Hsplit|].
  clear IHpieces. rename pieces into init, piece into lst.
  rewrite last_snoc in Hlast.
  assert (lst ≠ "") as Hlst by congruence.
  rewrite sliceInit_snoc, filter_nonempty_snoc by done.
  apply Forall_app in Hnosep as [Hinit _].
  assert (filter (λ s, s ≠ "")
            (split "/" (if nonempty (join "/" init) then join "/" init
                        else "/"))
          = filter (λ s, s ≠ "") init) as Hsegs.
  { destruct init as [|piece init'] eqn:Hi; [done|].
    destruct (join "/" (piece :: init')) as [|c r] eqn:Hjoin.
    - apply (join_empty_pieces "/") in Hjoin as ->; done.
    - cbn [nonempty]. by rewrite <- Hjoin, split_join. }
  split; [done|]. intros this. by rewrite listFiles_run, Hsegs.
Qed.

Lemma goUp_lists_parent_witness :
  FileManager.goUp "/home/user" = Some "/home"
  ∧ filter (λ s, s ≠ "") (split "/" "/home") = ["home"].
Proof.
  destruct (goUp_lists_parent "/home/user") as (parent & Hup & Hsegs & _);
    [discriminate|discriminate|].
  assert (parent = "/home") as -> by (by injection Hup as <-).
  split; [exact Hup|exact Hsegs].
Defined.

(** ** The terminal search *)

(** X18. Stepping through the matches stays in range and the two steps
    undo each other: for an index within [0, count), [nextMatch] and
    [prevMatch] give an index within [0, count), the one after the last is
    the first, the one before the first is the last, and [prevMatch] after
    [nextMatch], like [nextMatch] after [prevMatch], gives the index
    back. *)
Theorem match_steps_cycle (count i : Z) :
  (0 ≤ i < count)%Z →
  (0 ≤ Terminal.nextMatch count i < count)%Z
  ∧ (0 ≤ Terminal.prevMatch count i < count)%Z
  ∧ Terminal.nextMatch count (count - 1) = 0%Z
  ∧ Terminal.prevMatch count 0 = (count - 1)%Z
  ∧ Terminal.prevMatch count (Terminal.nextMatch count i) = i
  ∧ Terminal.nextMatch count (Terminal.prevMatch count i) = i.
Proof.
  intros Hi. unfold Terminal.nextMatch, Terminal.prevMatch.
  rewrite !bool_decide_eq_false_2 by lia.
  assert (∀ a, (0 ≤ a < count)%Z → Z.rem a count = a) as Hsmall
    by (intros a Ha; by apply Z.rem_small).
  assert (∀ a, (0 ≤ a < count)%Z → Z.rem (a + count) count = a) as Hwrap.
  { intros a Ha. rewrite Z.rem_mod_nonneg by lia.
    replace (a + count)%Z with (a + 1 * count)%Z by lia.
    rewrite Z.mod_add by lia. apply Z.mod_small. lia. }
  assert (Z.rem (count - 1 + 1) count = 0%Z) as Hlast.
  { replace (count - 1 + 1)%Z with (0 + count)%Z by lia.
    apply Hwrap. lia. }
  assert (Z.rem (0 - 1 + count) count = (count - 1)%Z) as Hfirst.
  { replace (0 - 1 + count)%Z with (count - 1)%Z by lia.
    apply Hsmall. lia. }
  destruct (decide (i + 1 = count)%Z) as [Hend|Hmid];
    destruct (decide (i = 0)%Z) as [Hzero|Hpos].
  - subst i. assert (count = 1%Z) as -> by lia. by vm_compute.
  - replace (i + 1)%Z with (count - 1 + 1)%Z by lia. rewrite Hlast.
    replace (i - 1 + count)%Z with ((i - 1) + count)%Z by lia.
    rewrite (Hwrap (i - 1)%Z) by lia. rewrite Hfirst.
    replace (i - 1 + 1)%Z with i by lia. rewrite Hsmall by lia.
    replace (count - 1)%Z with i by lia. lia.
  - subst i. rewrite Hfirst, Hlast.
    rewrite (Hsmall (0 + 1)%Z) by lia.
    replace (0 + 1 - 1 + count)%Z with (0 + count)%Z by lia.
    rewrite (Hwrap 0%Z) by lia. lia.
  - rewrite (Hsmall (i + 1)%Z) by lia.
    rewrite (Hwrap (i - 1)%Z) by lia.
    replace (i + 1 - 1 + count)%Z with (i + count)%Z by lia.
    rewrite (Hwrap i) by lia.
    replace (i - 1 + 1)%Z with i by lia. rewrite (Hsmall i) by lia.
    rewrite Hlast, Hfirst. lia.
Qed.

Lemma match_steps_cycle_witness :
  Terminal.nextMatch 3 2 = 0%Z ∧ Terminal.prevMatch 3 0 = 2%Z.
Proof.
  destruct (match_steps_cycle 3 2) as (_ & _ & Hnext & Hprev & _); [lia|].
  split; [exact Hnext|exact Hprev].
Defined.

(** Without matches the two steps do nothing. *)
Example match_steps_empty (i : Z) :
  Terminal.nextMatch 0 i = i ∧ Terminal.prevMatch 0 i = i.
Proof. done. Qed.

(** ** The saved connection profiles *)

Section ConnectionFormFacts.

Import ConnectionForm.

Lemma filter_fresh_id (l : list SavedConnection) target :
  target ∉ map id l →
  List.filter (λ c, negb (bool_decide (id c = target))) l = l.
Proof.
  induction l as [|c l IH]; [done|]. cbn [map List.filter].
  rewrite not_elem_of_cons. intros [Hc Hl].
  by rewrite bool_decide_eq_false_2, IH by done.
Qed.

Lemma storedConnection_number c :
  portIsNumber c → storedConnection c = c.
Proof. intros [z Hz]. destruct c as [? ? ? ? p ?]. cbn in Hz. by subst p. Qed.

(** Where every port is a number, the stored list is the list. *)
Lemma stored_numbers (l : list SavedConnection) :
  Forall portIsNumber l → storedConnection <$> l = l.
Proof.
  induction 1 as [|c l Hc _ IH]; [done|].
  by rewrite fmap_cons, storedConnection_number, IH.
Qed.

Lemma storedConnection_writtenAs (l : list SavedConnection) :
  storageHolds (Some (storedConnection <$> l)) l.
Proof.
  eexists. split; [done|].
  induction l as [|c l IH]; [constructor|].
  rewrite fmap_cons. constructor; [|done].
  destruct c as [? ? ? ? [z| |] ?]; by repeat split.
Qed.

End ConnectionFormFacts.

(** X19. Saving over a selected profile edits in place: with a label and a
    selected identifier, [handleSaveProfile] throws when the storage
    refuses the item; when the storage takes it, the handler keeps the
    identifiers of the saved profiles and their order, every profile with
    the selected identifier now carries the fields of the form, every other
    profile is as it was, and the stored item is the list in memory as
    JSON writes it: the same profiles, with [null] for a port that is not a
    number, hence the list itself where every port is a number. *)
Theorem saveProfile_edits_in_place
    (now sid : string) (st : ConnectionForm.Form) :
  ConnectionForm.formLabel st ≠ "" →
  ConnectionForm.selectedId st = Some sid →
  sid ≠ "" →
  ConnectionForm.handleSaveProfile now false st = None
  ∧ ∃ st', ConnectionForm.handleSaveProfile now true st = Some st'
    ∧ map ConnectionForm.id (ConnectionForm.savedConnections st')
      = map ConnectionForm.id (ConnectionForm.savedConnections st)
    ∧ (∀ k c, ConnectionForm.savedConnections st !! k = Some c →
         ConnectionForm.savedConnections st' !! k
         = Some (if bool_decide (ConnectionForm.id c = sid)
                 then ConnectionForm.mkSaved sid
                        (ConnectionForm.formLabel st)
                        (ConnectionForm.formHost st)
                        (ConnectionForm.formUsername st)
                        (ConnectionForm.formPort st)
                        (ConnectionForm.formAuthType st)
                 else c))
    ∧ storageHolds (ConnectionForm.storage st')
                   (ConnectionForm.savedConnections st')
    ∧ (Forall portIsNumber (ConnectionForm.savedConnections st') →
       ConnectionForm.storage st'
       = Some (ConnectionForm.savedConnections st'))
    ∧ ConnectionForm.selectedId st' = Some sid.
Proof.
  intros Hlabel Hsel Hsid.
  unfold ConnectionForm.handleSaveProfile.
  rewrite nonempty_true, Hsel by done. cbn [negb truthy interpolate].
  rewrite (nonempty_true sid) by done.
  unfold ConnectionForm.saveToStorage.
  split; [done|]. eexists. split; [reflexivity|].
  cbn [ConnectionForm.savedConnections ConnectionForm.storage
       ConnectionForm.selectedId].
  split_and!; [| |apply storedConnection_writtenAs| |done].
  - induction (ConnectionForm.savedConnections st) as [|c l IH]; [done|].
    cbn [map]. rewrite IH. f_equal.
    case_bool_decide as Hc; [|done]. cbn. congruence.
  - intros k c Hk.
    change (map ?f ?l) with (f <$> l). rewrite list_lookup_fmap, Hk.
    cbn [fmap option_fmap option_map]. f_equal.
    rewrite (bool_decide_ext (Some (ConnectionForm.id c) = Some sid)
               (ConnectionForm.id c = sid)); [done|].
    split; congruence.
  - intros Hnum. by rewrite stored_numbers.
Qed.

Lemma saveProfile_edits_in_place_witness :
  let old := ConnectionForm.mkSaved "7" "lab" "h" "u" (ConnectionForm.Num 22)
               ConnectionForm.password_auth in
  let st := ConnectionForm.mkForm [old] (Some "7") "prod" "10.0.0.1" "root"
              (ConnectionForm.Num 2222) ConnectionForm.key_auth "secret"
              None in
  ∃ st', ConnectionForm.handleSaveProfile "9" true
           (ConnectionForm.setPort ConnectionForm.NaN st) = Some st'
    ∧ ConnectionForm.savedConnections st'
      = [ConnectionForm.mkSaved "7" "prod" "10.0.0.1" "root"
           ConnectionForm.NaN ConnectionForm.key_auth]
    ∧ ConnectionForm.storage st'
      = Some [ConnectionForm.mkSaved "7" "prod" "10.0.0.1" "root"
                ConnectionForm.Null ConnectionForm.key_auth].
Proof.
  intros old st.
  destruct (saveProfile_edits_in_place "9" "7"
              (ConnectionForm.setPort ConnectionForm.NaN st))
    as (_ & st' & Hrun & _ & Hat & Hstored & _);
    [discriminate|reflexivity|discriminate|].
  exists st'. split; [exact Hrun|].
  injection Hrun as <-. split; reflexivity.
Defined.

(** X20. Creating a profile and deleting it again restores the list: with
    a label, no selection and an identifier that no saved profile has,
    [handleSaveProfile] appends one profile with that identifier and
    selects it, and [handleDeleteProfile] on that identifier gives the
    saved list back and resets the form to a new connection.  After each
    of the two the stored item is the list in memory as JSON writes it
    ([null] for a port that is not a number); each of the two throws when
    the storage refuses the item. *)
Theorem create_then_delete_profile (now : string) (st : ConnectionForm.Form) :
  ConnectionForm.formLabel st ≠ "" →
  ConnectionForm.selectedId st = None →
  now ∉ map ConnectionForm.id (ConnectionForm.savedConnections st) →
  ConnectionForm.handleSaveProfile now false st = None
  ∧ ∃ st1 st2,
      ConnectionForm.handleSaveProfile now true st = Some st1
      ∧ ConnectionForm.handleDeleteProfile true now st1 = Some st2
      ∧ ConnectionForm.handleDeleteProfile false now st1 = None
      ∧ length (ConnectionForm.savedConnections st1)
        = S (length (ConnectionForm.savedConnections st))
      ∧ ConnectionForm.selectedId st1 = Some now
      ∧ storageHolds (ConnectionForm.storage st1)
                     (ConnectionForm.savedConnections st1)
      ∧ ConnectionForm.savedConnections st2
        = ConnectionForm.savedConnections st
      ∧ storageHolds (ConnectionForm.storage st2)
                     (ConnectionForm.savedConnections st)
      ∧ ConnectionForm.selectedId st2 = None
      ∧ ConnectionForm.formLabel st2 = ""
      ∧ ConnectionForm.formPassword st2 = "".
Proof.
  intros Hlabel Hsel Hfresh.
  unfold ConnectionForm.handleSaveProfile.
  rewrite nonempty_true, Hsel by done. cbn [negb truthy].
  unfold ConnectionForm.handleDeleteProfile, ConnectionForm.saveToStorage,
    ConnectionForm.setSelectedId, ConnectionForm.handleNewConnection.
  split; [done|]. eexists. eexists. split; [reflexivity|].
  cbn [ConnectionForm.savedConnections ConnectionForm.storage
       ConnectionForm.selectedId ConnectionForm.id].
  rewrite bool_decide_eq_true_2 by done.
  rewrite List.filter_app, filter_fresh_id by done.
  cbn [List.filter ConnectionForm.id].
  rewrite bool_decide_eq_true_2 by done. cbn [negb].
  rewrite app_nil_r.
  split; [reflexivity|].
  cbn [ConnectionForm.savedConnections ConnectionForm.storage
       ConnectionForm.selectedId ConnectionForm.formLabel
       ConnectionForm.formPassword].
  rewrite length_app. simpl.
  split_and!;
    [done|lia|done|apply storedConnection_writtenAs|done
    |apply storedConnection_writtenAs|done..].
Qed.

Lemma create_then_delete_profile_witness :
  let old := ConnectionForm.mkSaved "7" "lab" "h" "u" (ConnectionForm.Num 22)
               ConnectionForm.password_auth in
  let st := ConnectionForm.mkForm [old] None "prod" "10.0.0.1" "root"
              (ConnectionForm.Num 2222) ConnectionForm.key_auth "secret"
              None in
  ∃ st1 st2,
    ConnectionForm.handleSaveProfile "9" true st = Some st1
    ∧ ConnectionForm.handleDeleteProfile true "9" st1 = Some st2
    ∧ ConnectionForm.savedConnections st2 = [old].
Proof.
  intros old st.
  destruct (create_then_delete_profile "9" st)
    as (_ & st1 & st2 & Hsave & Hdelete & _ & _ & _ & _ & Hback & _);
    [discriminate|reflexivity| |by exists st1, st2].
  cbn. rewrite elem_of_cons, elem_of_nil. intros [?|[]]. discriminate.
Defined.

(** ** More on the interpreter and the file manager *)

Section MoreFacts.

Lemma resolve_loop_no_dotdot (segs work : list string) :
  Forall (λ s, s ≠ "..") segs → fold_left resolveStep segs work = work ++ segs.
Proof.
  intros Hall. revert work.
  induction Hall as [|seg segs Hseg _ IH]; intros work.
  - by rewrite app_nil_r.
  - cbn [fold_left]. unfold resolveStep at 2.
    rewrite bool_decide_eq_false_2 by done.
    by rewrite IH, <- app_assoc.
Qed.

Lemma filters_agree_without_dot (pieces : list string) :
  Forall (λ s, s ≠ "." ∧ s ≠ "..") pieces →
  List.filter (λ p, nonempty p && negb (bool_decide (p = "."))) pieces
  = filter (λ s, s ≠ "") pieces.
Proof.
  induction 1 as [|piece pieces [Hdot _] _ IH]; [done|].
  cbn [List.filter]. rewrite IH, filter_cons.
  rewrite (bool_decide_eq_false_2 (piece = ".")) by done.
  destruct piece; [by rewrite decide_False by (intros H; by apply H)|].
  by rewrite decide_True.
Qed.

End MoreFacts.

(** X21. On a plain absolute path the file manager and the shell look up
    the same node: for a path string that starts with ['/'] and has no
    piece equal to ['.'] or ['..'], [listFiles] returns the listing of the
    node that [resolvePath] returns, whatever the cursor. *)
Theorem listFiles_agrees_with_resolver (pathStr : string) (this : MockSystem) :
  startsWith "/" pathStr = true →
  Forall (λ s, s ≠ "." ∧ s ≠ "..") (split "/" pathStr) →
  fst (listFiles pathStr this) = listingOf (resolvedNode pathStr this)
  ∧ resolvedParts pathStr this = filter (λ s, s ≠ "") (split "/" pathStr).
Proof.
  intros Habs Hplain.
  assert (resolvedParts pathStr this
          = filter (λ s, s ≠ "") (split "/" pathStr)) as Hparts.
  { unfold resolvedParts, resolvePath, bind, getCurrentPath, findNode,
      getRoot, ret. cbn [fst snd]. rewrite Habs.
    rewrite filters_agree_without_dot by done.
    rewrite resolve_loop_no_dotdot; [done|].
    apply Forall_forall. intros seg [_ Hin]%list_elem_of_filter.
    rewrite Forall_forall in Hplain. by apply Hplain in Hin as [_ ?]. }
  split; [|done].
  by rewrite listFiles_run, resolvedNode_parts, Hparts.
Qed.

Lemma listFiles_agrees_with_resolver_witness :
  (name <$> fst (listFiles "//var/log/" new_MockSystem)) = ["syslog"].
Proof.
  destruct (listFiles_agrees_with_resolver "//var/log/" new_MockSystem)
    as [Hlist _]; [reflexivity| |by rewrite Hlist].
  repeat constructor; discriminate.
Defined.

(** X22. Only the tokens of a line count: a line and the line made of its
    tokens joined by single spaces give the same output and the same
    state, so white space at either end and the width of the gaps make no
    difference. *)
Theorem executeCommand_whitespace_insensitive
    (line : string) (this : MockSystem) :
  tokens (join " " (tokens line)) = tokens line
  ∧ executeCommand (join " " (tokens line)) this = executeCommand line this.
Proof.
  assert (tokens (join " " (tokens line)) = tokens line) as Hsame.
  { destruct (tokens_clean line) as [->|Hclean]; [done|].
    apply tokens_join; [|done].
    pose proof (tokens_first line) as [? Hfirst].
    by destruct (tokens line). }
  split; [done|]. unfold executeCommand. by rewrite Hsame.
Qed.



(** A name with white space: the upload succeeds and [ls] shows the file,
    but [cat] is given the path up to the white space. *)
Example cat_name_with_space :
  let f := fileNode "a b.txt" "-rw-r--r--" "user" "2" "Oct 28 08:00" "a" in
  let this' := snd (addFile "/etc" f new_MockSystem) in
  fst (addFile "/etc" f new_MockSystem) = true
  ∧ fst (executeCommand "ls /etc" this') = "passwd  a b.txt"
  ∧ fst (executeCommand "cat /etc/a b.txt" this')
    = "cat: /etc/a: No such file or directory".
Proof. by vm_compute. Qed.

(** ** The terminal search: finding the matches *)

Section SearchFacts.

Implicit Types (s hay needle : string) (ms : list Terminal.Match).

Lemma toLowerCase_nonempty s : s ≠ "" → Terminal.toLowerCase s ≠ "".
Proof. by destruct s. Qed.

Lemma string_length_pos s : s ≠ "" → 0 < String.length s.
Proof. destruct s; [done|]. cbn. lia. Qed.


Lemma substring_cons_S a m c r :
  String.substring (S a) m (String c r) = String.substring a m r.
Proof. reflexivity. Qed.







Lemma prefix_length needle hay :
  String.prefix needle hay = true → String.length needle ≤ String.length hay.
Proof.
  revert hay. induction needle as [|a needle IH]; intros hay; [cbn; lia|].
  destruct hay as [|b hay]; [done|]. cbn.
  destruct (ascii_dec a b); [|done]. intros H%IH. lia.
Qed.

Lemma indexOfFrom_unfold needle hay pos from :
  Terminal.indexOfFrom needle hay pos from =
    if (from <=? pos) && String.prefix needle hay then Some pos
    else match hay with
         | EmptyString => None
         | String _ r => Terminal.indexOfFrom needle r (S pos) from
         end.
Proof. by destruct hay. Qed.

(** What the scan returns is an occurrence not before [from]. *)
Lemma indexOfFrom_sound needle hay pos from i :
  Terminal.indexOfFrom needle hay pos from = Some i →
  from ≤ i ∧ pos ≤ i ∧ occursAt needle hay (i - pos).
Proof.
  revert pos. induction hay as [|c r IH]; intros pos;
    rewrite indexOfFrom_unfold;
    destruct ((from <=? pos) && String.prefix needle _) eqn:Hhere.
  - apply andb_prop in Hhere as [Hfrom%Nat.leb_le Hpre].
    intros [= <-]. rewrite Nat.sub_diag. split_and!; [done..|].
    split; [by apply prefix_length in Hpre|by apply String.prefix_correct].
  - done.
  - apply andb_prop in Hhere as [Hfrom%Nat.leb_le Hpre].
    intros [= <-]. rewrite Nat.sub_diag. split_and!; [done..|].
    split; [by apply prefix_length in Hpre|by apply String.prefix_correct].
  - intros (Hfrom & Hpos & Hlen & Hsub)%IH.
    split_and!; [done|lia|]. unfold occursAt.
    replace (i - pos) with (S (i - S pos)) by lia.
    rewrite substring_cons_S. split; [cbn; lia|done].
Qed.

(** The scan misses no occurrence: it returns the first one. *)
Lemma indexOfFrom_complete needle hay pos from j :
  from ≤ j → pos ≤ j → occursAt needle hay (j - pos) →
  ∃ i, Terminal.indexOfFrom needle hay pos from = Some i ∧ i ≤ j.
Proof.
  revert pos. induction hay as [|c r IH]; intros pos Hfrom Hpos [Hlen Hsub];
    rewrite indexOfFrom_unfold;
    destruct ((from <=? pos) && String.prefix needle _) eqn:Hhere;
    try (by exists pos).
  - exfalso. assert (j = pos) as -> by (cbn in Hlen; lia).
    rewrite Nat.sub_diag in Hsub. apply String.prefix_correct in Hsub.
    rewrite Hsub, andb_true_r in Hhere. apply Nat.leb_gt in Hhere. lia.
  - destruct (decide (j = pos)) as [->|Hne].
    + exfalso. rewrite Nat.sub_diag in Hsub.
      apply String.prefix_correct in Hsub.
      rewrite Hsub, andb_true_r in Hhere. apply Nat.leb_gt in Hhere. lia.
    + apply IH; [done|lia|].
      replace (j - pos) with (S (j - S pos)) in Hlen, Hsub by lia.
      rewrite substring_cons_S in Hsub. split; [cbn in Hlen; lia|done].
Qed.

Lemma indexOf_sound needle hay from i :
  needle ≠ "" →
  Terminal.indexOf needle hay from = Some i →
  from ≤ i ∧ occursAt needle hay i.
Proof.
  intros Hne (Hfrom & _ & Hocc)%indexOfFrom_sound.
  rewrite Nat.sub_0_r in Hocc. split; [|done].
  destruct Hocc as [Hlen _]. apply string_length_pos in Hne. lia.
Qed.

Lemma indexOf_complete needle hay from j :
  from ≤ j → occursAt needle hay j →
  ∃ i, Terminal.indexOf needle hay from = Some i ∧ i ≤ j.
Proof.
  intros Hfrom Hocc. apply indexOfFrom_complete; [lia|lia|].
  by rewrite Nat.sub_0_r.
Qed.

(** The loop on one line, with a non-empty query. *)
Lemma searchLine_sound fuel q content id startIndex :
  q ≠ "" →
  Forall (λ m, Terminal.lineId m = id
               ∧ Terminal.len m = String.length q
               ∧ occursAt q content (Terminal.start m))
         (Terminal.searchLine fuel q content id startIndex)
  ∧ chained startIndex (Terminal.searchLine fuel q content id startIndex).
Proof.
  intros Hne. revert startIndex.
  induction fuel as [|fuel IH]; intros startIndex; [by split|].
  cbn [Terminal.searchLine].
  destruct (Terminal.indexOf q content startIndex) as [found|] eqn:Hfound;
    [|by split].
  apply indexOf_sound in Hfound as [Hfrom Hocc]; [|done].
  destruct (IH (found + String.length q)) as [Hall Hchain].
  split; [by constructor|]. by split.
Qed.

(** The bound on the rounds is never what ends the loop. *)
Lemma searchLine_fuel fuel extra q content id startIndex :
  q ≠ "" →
  String.length content < startIndex + fuel →
  Terminal.searchLine (fuel + extra) q content id startIndex
  = Terminal.searchLine fuel q content id startIndex.
Proof.
  intros Hne. pose proof (string_length_pos q Hne) as Hpos.
  revert startIndex. induction fuel as [|fuel IH]; intros startIndex Hfuel.
  - destruct extra as [|extra]; [done|]. cbn [Nat.add Terminal.searchLine].
    destruct (Terminal.indexOf q content startIndex) as [found|] eqn:Hfound;
      [|done].
    apply indexOf_sound in Hfound as [Hfrom [Hlen _]]; [lia|done].
  - cbn [Nat.add Terminal.searchLine].
    destruct (Terminal.indexOf q content startIndex) as [found|] eqn:Hfound;
      [|done].
    apply indexOf_sound in Hfound as [Hfrom [Hlen _]]; [|done].
    rewrite IH by lia. done.
Qed.

Lemma searchLine_complete fuel q content id startIndex j :
  startIndex ≤ j → occursAt q content j →
  ∃ m rest, Terminal.searchLine (S fuel) q content id startIndex = m :: rest
            ∧ Terminal.start m ≤ j.
Proof.
  intros Hfrom Hocc. cbn [Terminal.searchLine].
  destruct (indexOf_complete q content startIndex j) as (i & -> & Hi);
    [done..|].
  by eexists _, _.
Qed.

Lemma elem_of_matches lines q m :
  q ≠ "" →
  m ∈ Terminal.matches lines q ↔
  ∃ line, line ∈ lines
          ∧ m ∈ Terminal.searchLine
                  (S (String.length
                        (Terminal.toLowerCase (Types.content line))))
                  (Terminal.toLowerCase q)
                  (Terminal.toLowerCase (Types.content line))
                  (Types.id line) 0.
Proof.
  intros Hne. unfold Terminal.matches.
  rewrite nonempty_true by done. cbn [negb].
  rewrite list_elem_of_In, in_flat_map.
  split; intros (line & Hline & Hm); exists line;
    by rewrite ?list_elem_of_In in *.
Qed.

Lemma matches_single line q :
  q ≠ "" →
  Terminal.matches [line] q
  = Terminal.searchLine
      (S (String.length (Terminal.toLowerCase (Types.content line))))
      (Terminal.toLowerCase q) (Terminal.toLowerCase (Types.content line))
      (Types.id line) 0.
Proof.
  intros Hne. unfold Terminal.matches. rewrite nonempty_true by done.
  cbn [negb flat_map]. apply app_nil_r.
Qed.

(** The matches of one line come one after the other. *)
Lemma matches_single_chained line q :
  q ≠ "" → chained 0 (Terminal.matches [line] q).
Proof.
  intros Hne. rewrite matches_single by done.
  by apply searchLine_sound, toLowerCase_nonempty.
Qed.

End SearchFacts.

(** X24. The search finds real occurrences.  The search works on the
    lowercased query and the lowercased content: every element of
    [matches] belongs to a line of the terminal, has the length of the
    lowercased query, and starts at a position of the lowercased content
    of that line where the lowercased query stands in full.  The matches
    of one line come in increasing order without overlap, and the bound on
    the rounds of the loop is never reached. *)
Theorem matches_sound
    (lines : list Types.TerminalLine) (searchQuery : string) :
  searchQuery ≠ "" →
  (∀ m, m ∈ Terminal.matches lines searchQuery →
     ∃ line, line ∈ lines
       ∧ Terminal.lineId m = Types.id line
       ∧ Terminal.len m = String.length (Terminal.toLowerCase searchQuery)
       ∧ occursAt (Terminal.toLowerCase searchQuery)
                  (Terminal.toLowerCase (Types.content line))
                  (Terminal.start m))
  ∧ (∀ line, chained 0 (Terminal.matches [line] searchQuery))
  ∧ (∀ line extra,
       Terminal.searchLine
         (S (String.length (Terminal.toLowerCase (Types.content line)))
          + extra)
         (Terminal.toLowerCase searchQuery)
         (Terminal.toLowerCase (Types.content line)) (Types.id line) 0
       = Terminal.matches [line] searchQuery).
Proof.
  intros Hne.
  pose proof (toLowerCase_nonempty searchQuery Hne) as Hne'.
  split_and!.
  - intros m (line & Hline & Hm)%elem_of_matches; [|done].
    exists line. split; [done|].
    destruct (searchLine_sound
                (S (String.length
                      (Terminal.toLowerCase (Types.content line))))
                (Terminal.toLowerCase searchQuery)
                (Terminal.toLowerCase (Types.content line))
                (Types.id line) 0 Hne') as [Hall _].
    rewrite Forall_forall in Hall. exact (Hall m Hm).
  - intros line. by apply matches_single_chained.
  - intros line extra. rewrite matches_single by done.
    apply searchLine_fuel; [done|]. lia.
Qed.

Lemma matches_sound_witness :
  let line := Types.mkLine "1" Types.output "Foo foofoo xFOO" None in
  Terminal.start <$> Terminal.matches [line] "foo" = [0; 4; 7; 12]
  ∧ chained 0 (Terminal.matches [line] "foo").
Proof.
  intros line.
  destruct (matches_sound [line] "foo") as (_ & Hchain & _); [discriminate|].
  split; [reflexivity|exact (Hchain line)].
Defined.

(** X25. The search misses no line: if the query, up to case, stands
    somewhere in the content of a line, then [matches] has a match for
    that line that starts there or before. *)
Theorem matches_complete
    (lines : list Types.TerminalLine) (searchQuery : string)
    (line : Types.TerminalLine) (j : nat) :
  searchQuery ≠ "" →
  line ∈ lines →
  occursAt (Terminal.toLowerCase searchQuery)
           (Terminal.toLowerCase (Types.content line)) j →
  ∃ m, m ∈ Terminal.matches lines searchQuery
       ∧ Terminal.lineId m = Types.id line
       ∧ Terminal.start m ≤ j.
Proof.
  intros Hne Hline Hocc.
  destruct (searchLine_complete
              (String.length (Terminal.toLowerCase (Types.content line)))
              (Terminal.toLowerCase searchQuery)
              (Terminal.toLowerCase (Types.content line))
              (Types.id line) 0 j) as (m & rest & Hrun & Hstart);
    [lia|done|].
  exists m.
  assert (m ∈ Terminal.searchLine
                (S (String.length
                      (Terminal.toLowerCase (Types.content line))))
                (Terminal.toLowerCase searchQuery)
                (Terminal.toLowerCase (Types.content line))
                (Types.id line) 0) as Hm
    by (rewrite Hrun; apply list_elem_of_here).
  split_and!; [|  |done].
  - apply elem_of_matches; [done|]. by exists line.
  - destruct (searchLine_sound
                (S (String.length
                      (Terminal.toLowerCase (Types.content line))))
                (Terminal.toLowerCase searchQuery)
                (Terminal.toLowerCase (Types.content line))
                (Types.id line) 0 (toLowerCase_nonempty _ Hne)) as [Hall _].
    rewrite Forall_forall in Hall. by destruct (Hall m Hm) as (? & _).
Qed.

Lemma matches_complete_witness :
  let line := Types.mkLine "1" Types.output "say HELLO" None in
  ∃ m, m ∈ Terminal.matches [line] "Hello" ∧ Terminal.start m ≤ 4.
Proof.
  intros line.
  destruct (matches_complete [line] "Hello" line 4)
    as (m & Hm & _ & Hstart);
    [discriminate|apply list_elem_of_here|split; [cbn; lia|reflexivity]|].
  by exists m.
Defined.

(** ** The terminal search: rendering a line *)

Section RenderFacts.

Implicit Types (parts : list Terminal.Part) (ms : list Terminal.Match).














End RenderFacts.

Section RenderTheorem.



End RenderTheorem.



(** With two lines under one identifier the matches of both are laid over
    each of them, and the text shown is no longer the content. *)
Example render_shared_identifier :
  let l1 := Types.mkLine "1" Types.output "a foo" None in
  let l2 := Types.mkLine "1" Types.output "foo b" None in
  Terminal.shownText
    (Terminal.renderLineContent "foo" (Terminal.matches [l1; l2] "foo") 0 l1)
  = "a fooa foo".
Proof. by vm_compute. Qed.

(** X27. Loading a saved profile and saving it unedited changes nothing of
    the list: when the saved profiles have different identifiers, for a
    saved profile with a label and an identifier, [handleSaveProfile] after
    [handleLoadProfile] leaves the saved list as it was, whatever its ports
    are, keeps the profile selected, and stores the list as JSON writes it
    ([null] for a port that is not a number); it throws when the storage
    refuses the item. *)
Theorem load_then_save_profile
    (now : string) (conn : ConnectionForm.SavedConnection)
    (st : ConnectionForm.Form) :
  NoDup (ConnectionForm.id <$> ConnectionForm.savedConnections st) →
  conn ∈ ConnectionForm.savedConnections st →
  ConnectionForm.label conn ≠ "" →
  ConnectionForm.id conn ≠ "" →
  ConnectionForm.handleSaveProfile now false
    (ConnectionForm.handleLoadProfile conn st) = None
  ∧ ∃ st',
      ConnectionForm.handleSaveProfile now true
        (ConnectionForm.handleLoadProfile conn st) = Some st'
      ∧ ConnectionForm.savedConnections st'
        = ConnectionForm.savedConnections st
      ∧ storageHolds (ConnectionForm.storage st')
                     (ConnectionForm.savedConnections st)
      ∧ ConnectionForm.selectedId st' = Some (ConnectionForm.id conn)
      ∧ ConnectionForm.formPort st' = ConnectionForm.port conn
      ∧ ConnectionForm.formPassword st' = "".
Proof.
  intros Hnodup Hconn Hlabel Hid.
  unfold ConnectionForm.handleSaveProfile, ConnectionForm.handleLoadProfile.
  cbn [ConnectionForm.formLabel ConnectionForm.selectedId
       ConnectionForm.formHost ConnectionForm.formUsername
       ConnectionForm.formPort ConnectionForm.formAuthType
       ConnectionForm.savedConnections].
  rewrite nonempty_true by done. cbn [negb truthy interpolate].
  rewrite (nonempty_true (ConnectionForm.id conn)) by done.
  unfold ConnectionForm.saveToStorage.
  cbn [ConnectionForm.savedConnections ConnectionForm.storage
       ConnectionForm.selectedId ConnectionForm.formPassword].
  assert (map (λ c, if bool_decide (Some (ConnectionForm.id c)
                                    = Some (ConnectionForm.id conn))
                    then ConnectionForm.mkSaved (ConnectionForm.id conn)
                           (ConnectionForm.label conn)
                           (ConnectionForm.host conn)
                           (ConnectionForm.username conn)
                           (ConnectionForm.port conn)
                           (ConnectionForm.authType conn)
                    else c)
              (ConnectionForm.savedConnections st)
          = ConnectionForm.savedConnections st) as ->.
  2:{ split; [done|]. eexists. split; [reflexivity|].
      split_and!; [done|apply storedConnection_writtenAs|done..]. }
  apply list_eq. intros k.
  change (map ?f ?l) with (f <$> l). rewrite list_lookup_fmap.
  destruct (ConnectionForm.savedConnections st !! k) as [c|] eqn:Hk;
    [|done].
  cbn [fmap option_fmap option_map]. f_equal.
  case_bool_decide as Hsame; [|done].
  injection Hsame as Hsame.
  apply list_elem_of_lookup_1 in Hconn as [k' Hk'].
  assert (k = k') as ->.
  { eapply (NoDup_lookup _ _ _ (ConnectionForm.id c)); [exact Hnodup| |].
    - by rewrite list_lookup_fmap, Hk.
    - rewrite list_lookup_fmap, Hk'. cbn. by rewrite Hsame. }
  assert (c = conn) as -> by congruence. by destruct conn.
Qed.

Lemma load_then_save_profile_witness :
  let a := ConnectionForm.mkSaved "7" "lab" "h" "u" (ConnectionForm.Num 22)
             ConnectionForm.password_auth in
  let b := ConnectionForm.mkSaved "8" "web" "w" "v" ConnectionForm.Null
             ConnectionForm.key_auth in
  let st := ConnectionForm.mkForm [a; b] None "" "192.168.1.100" "user"
              (ConnectionForm.Num 22) ConnectionForm.password_auth "pw"
              None in
  ∃ st',
    ConnectionForm.handleSaveProfile "9" true
      (ConnectionForm.handleLoadProfile b st) = Some st'
    ∧ ConnectionForm.savedConnections st' = [a; b].
Proof.
  intros a b st.
  destruct (load_then_save_profile "9" b st) as (_ & st' & Hrun & Hsame & _).
  - repeat constructor; rewrite ?elem_of_cons, ?elem_of_nil;
      intuition discriminate.
  - apply list_elem_of_further, list_elem_of_here.
  - discriminate.
  - discriminate.
  - by exists st'.
Defined.
